(** * jx pipeline effective: a shallow embedding of pkg/cmd/effective/effective.go

    The command discovers [triggers.yaml] files below [.lighthouse]
    directories, resolves the pipelines they reference, lets the operator
    select one and prints, saves or opens it in an editor.

    Layout of this development:
    - the Go library functions the command calls on strings and paths
      ([strings], [strconv], [path/filepath], [io/ioutil]), as executable
      functions over byte strings;
    - the data model ([JobBase], [Config], [Trigger], [Options]) and the
      collaborators of the command (file system, resolver, picker, command
      runner), as a record of oracles that see the history of the run;
    - the methods of [Options], in an error/state monad that threads the
      mutated receiver and the trace of external calls;
    - the properties of the command. *)

From Stdlib Require Import ZArith Lia Ascii DecimalString.
From stdpp Require Import base option list gmap strings.

(** ** Go strings

    A Go [string] is a sequence of bytes; so is a Rocq [string]. *)

Definition byte_of (n : nat) : ascii := ascii_of_nat n.

Fixpoint bytes (l : list nat) : string :=
  match l with
  | [] => ""
  | n :: l' => String (byte_of n) (bytes l')
  end.

Module Strings.

(** [strings.HasPrefix(s, prefix)] *)
Definition HasPrefix (s prefix : string) : bool := String.prefix prefix s.

(** [strings.Join(elems, sep)] *)
Definition Join (elems : list string) (sep : string) : string :=
  String.concat sep elems.

(** [strings.Split(s, sep)] for a non-empty separator: [s] is cut at every
    occurrence of [sep], scanning from the left, occurrences do not
    overlap.  [skip] counts the bytes of a separator still to be passed
    over, [cur] is the current piece, reversed. *)
Fixpoint genSplit (sep : string) (skip : nat) (cur : string) (s : string)
  : list string :=
  match s with
  | "" => [String.rev cur]
  | String c s' =>
      match skip with
      | S k => genSplit sep k cur s'
      | O =>
          if String.prefix sep s
          then String.rev cur :: genSplit sep (String.length sep - 1) "" s'
          else genSplit sep 0 (String c cur) s'
      end
  end.

(** With an empty separator Go explodes [s] into its UTF-8 sequences; the
    command never does that, and the model explodes into bytes. *)
Fixpoint explode (s : string) : list string :=
  match s with
  | "" => []
  | String c s' => String c "" :: explode s'
  end.

Definition Split (s sep : string) : list string :=
  match sep with
  | "" => explode s
  | _ => genSplit sep 0 "" s
  end.

(** [strings.ReplaceAll(s, old, new)] for a non-empty [old]. *)
Fixpoint genReplace (old new : string) (skip : nat) (s : string) : string :=
  match s with
  | "" => ""
  | String c s' =>
      match skip with
      | S k => genReplace old new k s'
      | O =>
          if String.prefix old s
          then new +:+ genReplace old new (String.length old - 1) s'
          else String c (genReplace old new 0 s')
      end
  end.

(** With an empty [old] Go inserts [new] before every UTF-8 sequence and
    at the end; the model does so before every byte. *)
Fixpoint intersperse (new : string) (s : string) : string :=
  match s with
  | "" => new
  | String c s' => new +:+ String c (intersperse new s')
  end.

Definition ReplaceAll (s old new : string) : string :=
  match old with
  | "" => intersperse new s
  | _ => genReplace old new 0 s
  end.

(** [unicode.IsSpace], on the UTF-8 encoding: the six ASCII white space
    bytes, U+0085, U+00A0, U+1680, U+2000..U+200A, U+2028, U+2029, U+202F,
    U+205F and U+3000.  A valid encoding is unique, and an invalid byte
    decodes to U+FFFD, which is no space, so that a string starts (ends)
    with a space rune exactly when it starts (ends) with one of these
    byte sequences. *)
Definition spaceRunes : list string :=
  (bytes <$> [[9]; [10]; [11]; [12]; [13]; [32]; [194; 133]; [194; 160];
              [225; 154; 128]])
  ++ ((fun n => bytes [226; 128; n]) <$> seq 128 11)
  ++ (bytes <$> [[226; 128; 168]; [226; 128; 169]; [226; 128; 175];
                 [226; 129; 159]; [227; 128; 128]]).

(** The space rune [s] starts with, if any. *)
Definition leadingSpace (s : string) : option string :=
  head (filter (fun r => String.prefix r s = true) spaceRunes).

Fixpoint dropBytes (n : nat) (s : string) : string :=
  match n, s with
  | S k, String _ s' => dropBytes k s'
  | _, _ => s
  end.

(** [strings.TrimLeftFunc(s, unicode.IsSpace)]; [fuel] bounds the number
    of runes removed, the length of [s] is enough. *)
Fixpoint trimLeft (fuel : nat) (s : string) : string :=
  match fuel with
  | O => s
  | S k =>
      match leadingSpace s with
      | Some r => trimLeft k (dropBytes (String.length r) s)
      | None => s
      end
  end.

Definition trailingSpace (s : string) : option string :=
  head (filter (fun r => String.prefix (String.rev r) (String.rev s) = true)
          spaceRunes).

Definition dropLast (n : nat) (s : string) : string :=
  String.rev (dropBytes n (String.rev s)).

(** [strings.TrimRightFunc(s, unicode.IsSpace)] *)
Fixpoint trimRight (fuel : nat) (s : string) : string :=
  match fuel with
  | O => s
  | S k =>
      match trailingSpace s with
      | Some r => trimRight k (dropLast (String.length r) s)
      | None => s
      end
  end.

(** [strings.TrimSpace(s)]: all leading and trailing white space removed,
    as defined by Unicode. *)
Definition TrimSpace (s : string) : string :=
  let l := trimLeft (String.length s) s in
  trimRight (String.length l) l.

End Strings.

Module Strconv.

(** Go's [int] is 64 bits wide on the platforms the command is built for;
    arithmetic wraps around. *)
Definition wrap (z : Z) : Z := ((z + 2 ^ 63) mod 2 ^ 64 - 2 ^ 63)%Z.

Definition add (a b : Z) : Z := wrap (a + b)%Z.

(** [strconv.Itoa(i)]: the decimal representation of [i]. *)
Definition Itoa (i : Z) : string := NilZero.string_of_int (Z.to_int i).

End Strconv.

Module Filepath.

(** The command is modelled on a Unix platform: [os.PathSeparator] is a
    slash and there are no volume names. *)
Definition PathSeparator : string := "/".

(** [filepath.IsAbs(path)] *)
Definition IsAbs (path : string) : bool := Strings.HasPrefix path "/".

(** The loop of [filepath.Clean], element by element: empty and [.]
    elements are dropped, a [..] element removes the element before it
    when there is one to remove, is dropped at the root, and is kept
    in front of a relative path.  [out] is the output so far, last
    element first. *)
Fixpoint cleanElems (rooted : bool) (out : list string)
  (elems : list string) : list string :=
  match elems with
  | [] => rev out
  | e :: rest =>
      if decide (e = "" \/ e = ".") then cleanElems rooted out rest
      else if decide (e = "..") then
        match out with
        | top :: out' =>
            if decide (top = "..") then cleanElems rooted (e :: out) rest
            else cleanElems rooted out' rest
        | [] =>
            if rooted then cleanElems rooted [] rest
            else cleanElems rooted [e] rest
        end
      else cleanElems rooted (e :: out) rest
  end.

(** [filepath.Clean(path)]: the shortest path name equivalent to [path]
    by purely lexical processing. *)
Definition Clean (path : string) : string :=
  if decide (path = "") then "."
  else
    let rooted := IsAbs path in
    let body := Strings.Join (cleanElems rooted [] (Strings.Split path "/")) "/" in
    if rooted then "/" +:+ body
    else if decide (body = "") then "." else body.

(** [filepath.Join(elem...)]: the elements from the first non-empty one
    on, joined with the separator, and cleaned; the empty string when
    all are empty. *)
Fixpoint Join' (elem : list string) : string :=
  match elem with
  | [] => ""
  | e :: rest =>
      if decide (e = "") then Join' rest
      else Clean (Strings.Join elem PathSeparator)
  end.

Definition Join (a b : string) : string := Join' [a; b].

(** [filepath.Split(path)]: the directory, up to and with the final
    separator, and the file name after it. *)
Fixpoint Split (path : string) : string * string :=
  match path with
  | "" => ("", "")
  | String c rest =>
      let '(dir, file) := Split rest in
      if decide (dir = "") then
        if decide (c = "/"%char) then ("/", file) else ("", String c file)
      else (String c dir, file)
  end.

End Filepath.

(** ** Errors and outcomes *)

(** The errors of the command: those its collaborators return, and those it
    builds with [errors.Wrapf], [errors.Errorf] and
    [options.InvalidOptionf], whose arguments are kept.  The message of
    [ErrWrapf] and the last one of [ErrInvalidOption] are the formatted
    text. *)
Inductive Error :=
  | ErrExternal (msg : string)
  | ErrWrapf (cause : Error) (msg : string)
  | ErrErrorf (msg : string)
  | ErrInvalidOption (option value message : string).

(** What a call comes to: a value, an error returned, or a run-time panic
    (a method called on a nil interface, an index out of range). *)
Inductive Outcome (A : Type) :=
  | Ok (a : A)
  | Fail (e : Error)
  | Panic.
Arguments Ok {A} a.
Arguments Fail {A} e.
Arguments Panic {A}.

(** ** Package os: the names of temporary files *)

Module Os.

(** [strings.LastIndexByte(s, c)], as the two sides of the cut. *)
Fixpoint cutLast (c : ascii) (s : string) : option (string * string) :=
  match s with
  | "" => None
  | String a rest =>
      match cutLast c rest with
      | Some (p, q) => Some (String a p, q)
      | None => if decide (a = c) then Some ("", rest) else None
      end
  end.

Fixpoint containsByte (c : ascii) (s : string) : bool :=
  match s with
  | "" => false
  | String a rest => if decide (a = c) then true else containsByte c rest
  end.

(** [prefixAndSuffix]: the pattern is cut at its last
    [*]; a pattern with a path separator is refused. *)
Definition prefixAndSuffix (pattern : string) : Outcome (string * string) :=
  if containsByte "/" pattern
  then Fail (ErrExternal "pattern contains path separator")
  else
    match cutLast "*" pattern with
    | Some (prefix, suffix) => Ok (prefix, suffix)
    | None => Ok (pattern, "")
    end.

(** [joinPath] *)
Definition joinPath (dir name : string) : string :=
  if String.prefix "/" (String.rev dir) then dir +:+ name
  else dir +:+ "/" +:+ name.

End Os.


(** ** The data model and the collaborators *)

Set Warnings "-register-all".

Section Effective.

(** The schema types of Tekton and the resolver of lighthouse are opaque
    to the command: [tektonv1beta1.PipelineRun],
    [tektonv1beta1.PipelineRunSpec] and [inrepo.UsesResolver]. *)
Context {PipelineRun PipelineRunSpecT UsesResolver : Type}.

(** [job.Base], the part shared by [job.Presubmit] and [job.Postsubmit],
    with the fields the command reads and writes. *)
Record JobBase := {
  Name : string;
  SourcePath : string;
  Agent : string;
  PipelineRunSpec : option PipelineRunSpecT
}.

(** [triggerconfig.ConfigSpec] and [triggerconfig.Config] *)
Record ConfigSpec := {
  Presubmits : list JobBase;
  Postsubmits : list JobBase
}.

Record TriggerConfig := { Spec : ConfigSpec }.

(** [Trigger]: the found trigger configs.  A nil [*PipelineRun] is
    [None]. *)
Record Trigger := {
  Path : string;
  Config : TriggerConfig;
  Names : list string;
  Pipelines : gmap string (option PipelineRun)
}.

(** [os.FileInfo], as far as the command looks at it. *)
Record FileInfo := { FileName : string; IsDir : bool }.

(** [cmdrunner.Command]; the streams are those of the process. *)
Record Command := { CmdName : string; Args : list string }.

(** The calls that leave the command, in the order they are made. *)
Inductive Event :=
  | EvBaseValidate
  | EvNewInput
  | EvCreateResolver
  | EvGetenv (key : string)
  | EvWalk (root : string)
  | EvReadDir (dir : string)
  | EvFileExists (path : string)
  | EvLoadFile (path : string)
  | EvLoadEffectivePipelineRun (path : string)
  | EvPickNameWithDefault (names : list string)
      (message defaultValue help : string)
  | EvGetwd
  | EvTempFile (dir prefix suffix : string)
  | EvSaveFile (obj : PipelineRun) (fileName : string)
  | EvInfof (msg : string)
  | EvPrint (data : string)
  | EvReadFile (path : string)
  | EvCommand (c : Command).

Definition Trace := list Event.

(** [input.Interface]: its method [PickNameWithDefault(names, message,
    defaultValue, help)]; and [cmdrunner.CommandRunner].  Both answer
    knowing what happened before. *)
Definition Picker :=
  Trace -> list string -> string -> string -> string -> Outcome string.
Definition Runner := Trace -> Command -> Outcome string.

(** [Options]: the command line options.  [Dir] is the field of the
    embedded [options.BaseOptions]; nil pointers, interfaces and functions
    are [None]. *)
Record Options := {
  Dir : string;
  Namespace : string;
  OutFile : string;
  TriggerName : string;
  PipelineName : string;
  Editor : string;
  Line : string;
  Recursive : bool;
  Resolver : option UsesResolver;
  Triggers : list Trigger;
  Input : option Picker;
  CommandRunner : option Runner
}.

(** What [filepath.Walk] finds below a root: files, directories with their
    entries in lexical order, directories that cannot be listed, and
    entries (or a root) that cannot be stat'ed. *)
Inductive FsNode :=
  | FsFile (name : string)
  | FsDir (name : string) (entries : list FsNode)
  | FsUnreadable (name : string) (e : Error)
  | FsBroken (name : string) (e : Error).

(** The world around the command: the operating system and the packages
    the command calls into, among them package [lighthouses] of this
    repository, which wraps the resolver.  They are parameters of the
    model.  Every oracle is given the trace of the calls made so far, so
    that two calls with the same arguments may be answered differently. *)
Record Env := {
  (** [options.BaseOptions.Validate] *)
  BaseOptions_Validate : Trace -> Outcome unit;
  (** [inputfactory.NewInput] *)
  NewInput : Trace -> Picker;
  (** [lighthouses.ResolverOptions.CreateResolver] *)
  CreateResolver : Trace -> Outcome (option UsesResolver);
  (** [cmdrunner.QuietCommandRunner] *)
  QuietCommandRunner : Runner;
  (** [os.Getenv] *)
  Getenv : Trace -> string -> string;
  (** the file tree [filepath.Walk] sees at a root *)
  FileTree : Trace -> string -> FsNode;
  (** [ioutil.ReadDir] *)
  ReadDir : Trace -> string -> Outcome (list FileInfo);
  (** [files.FileExists] *)
  FileExists : Trace -> string -> Outcome bool;
  (** [yamls.LoadFile] into a fresh [triggerconfig.Config] *)
  LoadFile : Trace -> string -> Outcome TriggerConfig;
  (** [lighthouses.LoadEffectivePipelineRun]: the resolver call *)
  LoadEffectivePipelineRun :
    Trace -> option UsesResolver -> string -> Outcome (option PipelineRun);
  (** [job.TektonPipelineAgent] *)
  TektonPipelineAgent : string;
  (** [os.Getwd] *)
  Getwd : Trace -> Outcome string;
  (** [os.TempDir] *)
  TempDir : string;
  (** the random part of the name under which [ioutil.TempFile] managed
      to create a new file, for a directory, a prefix and a suffix *)
  CreateTemp : Trace -> string -> string -> string -> Outcome string;
  (** [yamls.SaveFile] *)
  SaveFile : Trace -> PipelineRun -> string -> Outcome unit;
  (** [yaml.Marshal] *)
  Marshal : PipelineRun -> Outcome string;
  (** [termcolor.ColorInfo] *)
  ColorInfo : string -> string;
  (** [ioutil.ReadFile] *)
  ReadFile : Trace -> string -> Outcome string
}.

(** ** The monad of the methods

    A method runs on its receiver (or on the object a pointer argument
    points to) of type [X] and on the trace; it leaves both changed
    whether it returns a value, an error or panics. *)
Definition M (X A : Type) : Type := X * Trace -> Outcome A * (X * Trace).

Definition ret {X A} (a : A) : M X A := fun s => (Ok a, s).

Definition bind {X A B} (m : M X A) (k : A -> M X B) : M X B :=
  fun s =>
    match m s with
    | (Ok a, s') => k a s'
    | (Fail e, s') => (Fail e, s')
    | (Panic, s') => (Panic, s')
    end.

Definition fail {X A} (e : Error) : M X A := fun s => (Fail e, s).
Definition panic {X A} : M X A := fun s => (Panic, s).

Definition get {X} : M X X := fun s => (Ok (fst s), s).
Definition modify {X} (f : X -> X) : M X unit :=
  fun s => (Ok tt, (f (fst s), snd s)).

(** A call to a collaborator: it is answered on the trace so far, and
    recorded. *)
Definition ask {X A} (f : Trace -> Outcome A) (ev : Event) : M X A :=
  fun s => (f (snd s), (fst s, snd s ++ [ev])).

(** A collaborator that cannot fail. *)
Definition observe {X A} (f : Trace -> A) (ev : Event) : M X A :=
  fun s => (Ok (f (snd s)), (fst s, snd s ++ [ev])).

Definition emit {X} (ev : Event) : M X unit :=
  fun s => (Ok tt, (fst s, snd s ++ [ev])).

(** [if err != nil { return errors.Wrapf(err, msg) }] *)
Definition wrapf {X A} (m : M X A) (msg : string) : M X A :=
  fun s =>
    match m s with
    | (Fail e, s') => (Fail (ErrWrapf e msg), s')
    | r => r
    end.

(** [v, err := f(); if err == nil { ... v ... }] *)
Definition try {X A} (m : M X A) : M X (option A) :=
  fun s =>
    match m s with
    | (Ok a, s') => (Ok (Some a), s')
    | (Fail e, s') => (Ok None, s')
    | (Panic, s') => (Panic, s')
    end.

(** A computation that leaves its receiver as it found it, and one that
    leaves a part [f] of it so. *)
Definition keeps {X A} (m : M X A) : Prop :=
  forall s, fst (snd (m s)) = fst s.

Definition stable {X Y A} (f : X -> Y) (m : M X A) : Prop :=
  forall s, f (fst (snd (m s))) = f (fst s).

Notation "x <- m ;; k" := (bind m (fun x => k))
  (at level 100, m at next level, right associativity).
Notation "m ;; k" := (bind m (fun _ => k))
  (at level 100, right associativity).

(** [for _, x := range l { body }], left at the first error. *)
Definition forEach {X A} (l : list A) (body : A -> M X unit) : M X unit :=
  (fix loop (l : list A) : M X unit :=
     match l with
     | [] => ret tt
     | x :: rest => body x ;; loop rest
     end) l.

Definition setTriggers (ts : list Trigger) (o : Options) : Options :=
  {| Dir := Dir o; Namespace := Namespace o; OutFile := OutFile o;
     TriggerName := TriggerName o; PipelineName := PipelineName o;
     Editor := Editor o; Line := Line o; Recursive := Recursive o;
     Resolver := Resolver o; Triggers := ts; Input := Input o;
     CommandRunner := CommandRunner o |}.

(** A method called on the object a pointer points to: here the [i]-th
    trigger of [o.Triggers], which is where every [*Trigger] of the
    command lives.  What the method does to the trigger is seen through
    [o.Triggers], also when it fails. *)
Definition atTrigger {A} (i : nat) (m : M Trigger A) : M Options A :=
  fun s =>
    match Triggers (fst s) !! i with
    | None => (Panic, s)
    | Some t =>
        let '(r, (t', tr')) := m (t, snd s) in
        (r, (setTriggers (<[i := t']> (Triggers (fst s))) (fst s), tr'))
    end.

Variable env : Env.

(** [log.Logger().Infof] and [fmt.Print] *)
Definition Infof {X} (msg : string) : M X unit := emit (EvInfof msg).
Definition Print {X} (data : string) : M X unit := emit (EvPrint data).

(** [filepath.Abs(path)] on Unix *)
Definition Abs {X} (path : string) : M X string :=
  if Filepath.IsAbs path then ret (Filepath.Clean path)
  else
    wd <- ask (Getwd env) EvGetwd ;;
    ret (Filepath.Join wd path).

(** [ioutil.TempFile(dir, pattern)], that is [os.CreateTemp]: a new file
    in [dir] (the default directory for temporary files when [dir] is
    empty) whose name is the pattern with a random string in the place of
    its last [*]; followed by [Name()] of the file. *)
Definition TempFile {X} (dir pattern : string) : M X string :=
  let dir := if decide (dir = "") then TempDir env else dir in
  match Os.prefixAndSuffix pattern with
  | Ok (prefix, suffix) =>
      random <- ask (fun tr => CreateTemp env tr dir prefix suffix)
                  (EvTempFile dir prefix suffix) ;;
      ret (Os.joinPath dir (prefix +:+ random +:+ suffix))
  | Fail e => fail e
  | Panic => panic
  end.

(** [cmdrunner.Command.CLI]: the name and the arguments, separated by
    spaces. *)
Definition CLI (c : Command) : string :=
  Strings.Join (CmdName c :: Args c) " ".

(** *** loadTriggerPipelines *)

Definition setAgent (a : string) (r : JobBase) : JobBase :=
  {| Name := Name r; SourcePath := SourcePath r; Agent := a;
     PipelineRunSpec := PipelineRunSpec r |}.

(** [trigger.Names = append(trigger.Names, name);
     trigger.Pipelines[name] = pr] *)
Definition addPipeline (name : string) (pr : option PipelineRun)
  (t : Trigger) : Trigger :=
  {| Path := Path t; Config := Config t; Names := Names t ++ [name];
     Pipelines := <[name := pr]> (Pipelines t) |}.

(** [r := &repoConfig.Spec.Presubmits[i]; *r = r'], where [repoConfig] is
    [trigger.Config], the very object the trigger points to. *)
Definition setPresubmit (i : nat) (r' : JobBase) (t : Trigger) : Trigger :=
  {| Path := Path t;
     Config := {| Spec := {|
       Presubmits := <[i := r']> (Presubmits (Spec (Config t)));
       Postsubmits := Postsubmits (Spec (Config t)) |} |};
     Names := Names t; Pipelines := Pipelines t |}.

Definition setPostsubmit (i : nat) (r' : JobBase) (t : Trigger) : Trigger :=
  {| Path := Path t;
     Config := {| Spec := {|
       Presubmits := Presubmits (Spec (Config t));
       Postsubmits := <[i := r']> (Postsubmits (Spec (Config t))) |} |};
     Names := Names t; Pipelines := Pipelines t |}.

(** The body of the loop over [repoConfig.Spec.Presubmits], at index
    [i]. *)
Definition loadPresubmit (o : Options) (dir : string) (i : nat)
  : M Trigger unit :=
  trigger <- get ;;
  match Presubmits (Spec (Config trigger)) !! i with
  | None => panic
  | Some r =>
      (if decide (SourcePath r <> "") then
         let path := Filepath.Join dir (SourcePath r) in
         pr <- wrapf (ask (fun tr => LoadEffectivePipelineRun env tr
                                       (Resolver o) path)
                        (EvLoadEffectivePipelineRun path))
                 ("failed to load " +:+ path) ;;
         let name := "presubmit/" +:+ Name r in
         modify (addPipeline name pr)
       else ret tt) ;;
      if decide (Agent r = "" /\ PipelineRunSpec r <> None) then
        modify (setPresubmit i (setAgent (TektonPipelineAgent env) r))
      else ret tt
  end.

(** The body of the loop over [repoConfig.Spec.Postsubmits]. *)
Definition loadPostsubmit (o : Options) (dir : string) (i : nat)
  : M Trigger unit :=
  trigger <- get ;;
  match Postsubmits (Spec (Config trigger)) !! i with
  | None => panic
  | Some r =>
      (if decide (SourcePath r <> "") then
         let path := Filepath.Join dir (SourcePath r) in
         pr <- wrapf (ask (fun tr => LoadEffectivePipelineRun env tr
                                       (Resolver o) path)
                        (EvLoadEffectivePipelineRun path))
                 ("failed to load " +:+ path) ;;
         let name := "postsubmit/" +:+ Name r in
         modify (addPipeline name pr)
       else ret tt) ;;
      if decide (Agent r = "" /\ PipelineRunSpec r <> None) then
        modify (setPostsubmit i (setAgent (TektonPipelineAgent env) r))
      else ret tt
  end.

Definition loadTriggerPipelines (o : Options) (dir : string)
  : M Trigger unit :=
  trigger <- get ;;
  let repoConfig := Config trigger in
  forEach (seq 0 (length (Presubmits (Spec repoConfig))))
    (loadPresubmit o dir) ;;
  forEach (seq 0 (length (Postsubmits (Spec repoConfig))))
    (loadPostsubmit o dir) ;;
  ret tt.

(** The names of the two loops: the path handed to the resolver for a job
    spec, the call as it shows in the trace, and the qualified name. *)
Definition resolverPath (dir : string) (r : JobBase) : string :=
  Filepath.Join dir (SourcePath r).

Definition resolverCall (dir : string) (r : JobBase) : Event :=
  EvLoadEffectivePipelineRun (resolverPath dir r).

Definition qualifiedName (kind : string) (r : JobBase) : string :=
  kind +:+ Name r.

(** What the two loops do to the agent of one job spec. *)
Definition fixAgent (r : JobBase) : JobBase :=
  if decide (Agent r = "" /\ PipelineRunSpec r <> None)
  then setAgent (TektonPipelineAgent env) r else r.

(** How the job spec [r'] found after a load relates to the job spec [r]
    that was at the same index before: only the agent may differ; it does
    not unless it was empty next to an inline pipeline spec, and then it
    is [job.TektonPipelineAgent] when the load went through ([ok]). *)
Definition agentFixed (ok : Prop) (r r' : JobBase) : Prop :=
  Name r' = Name r /\ SourcePath r' = SourcePath r
  /\ PipelineRunSpec r' = PipelineRunSpec r
  /\ (~ (Agent r = "" /\ PipelineRunSpec r <> None) -> Agent r' = Agent r)
  /\ (ok -> Agent r = "" -> PipelineRunSpec r <> None ->
      Agent r' = TektonPipelineAgent env).

(** *** ProcessDir *)

Definition appendTrigger (t : Trigger) (o : Options) : Options :=
  setTriggers (Triggers o ++ [t]) o.

(** A trigger as [ProcessDir] creates it. *)
Definition newTrigger (triggersFile : string) (triggers : TriggerConfig)
  : Trigger :=
  {| Path := triggersFile; Config := triggers; Names := [];
     Pipelines := ∅ |}.

(** The body of the loop of [ProcessDir] over the entries of [dir]. *)
Definition processEntry (dir : string) (f : FileInfo) : M Options unit :=
  let name := FileName f in
  if negb (IsDir f) || Strings.HasPrefix name "." then ret tt
  else
    let triggerDir := Filepath.Join dir name in
    let triggersFile := Filepath.Join triggerDir "triggers.yaml" in
    exists_ <- wrapf (ask (fun tr => FileExists env tr triggersFile)
                        (EvFileExists triggersFile))
                 ("failed to check if file exists " +:+ triggersFile) ;;
    if negb exists_ then ret tt
    else
      triggers <- wrapf (ask (fun tr => LoadFile env tr triggersFile)
                           (EvLoadFile triggersFile))
                    ("failed to load " +:+ triggersFile) ;;
      let trigger := newTrigger triggersFile triggers in
      o <- get ;;
      let ptr := length (Triggers o) in
      modify (appendTrigger trigger) ;;
      o <- get ;;
      wrapf (atTrigger ptr (loadTriggerPipelines o triggerDir))
        ("failed to load pipelines for trigger: " +:+ triggersFile).

Definition ProcessDir (dir : string) : M Options unit :=
  fs <- wrapf (ask (fun tr => ReadDir env tr dir) (EvReadDir dir))
          ("failed to read dir " +:+ dir) ;;
  forEach fs (processEntry dir) ;;
  ret tt.

(** *** findFirstStepLine *)

(** The loop of [findFirstStepLine] from index [i] on: the first line
    which is [steps:] once trimmed answers [strconv.Itoa(i + 2)]. *)
Fixpoint firstStepLine (i : nat) (lines : list string) : option string :=
  match lines with
  | [] => None
  | line :: rest =>
      if decide (Strings.TrimSpace line = "steps:")
      then Some (Strconv.Itoa (Strconv.add (Z.of_nat i) 2))
      else firstStepLine (S i) rest
  end.

Definition findFirstStepLine {X} (path : string) : M X string :=
  data <- wrapf (ask (fun tr => ReadFile env tr path) (EvReadFile path))
            ("failed to load pipeline file " +:+ path) ;;
  let lines := Strings.Split data (bytes [10]) in
  match firstStepLine 0 lines with
  | Some line => ret line
  | None =>
      Infof "could not find line with 'steps:'" ;;
      ret ""
  end.

(** *** openInEditor *)

Definition runCommand (c : Command) : M Options string :=
  o <- get ;;
  match CommandRunner o with
  | None => panic
  | Some run => ask (fun tr => run tr c) (EvCommand c)
  end.

(** The line [openInEditor] opens the editor at: [o.Line], or else the
    one found in the file, or else a guess. *)
Definition targetLine (path : string) : M Options string :=
  o <- get ;;
  if decide (Line o = "") then
    line <- wrapf (findFirstStepLine path) "failed to " ;;
    if decide (line = "") then ret "161" else ret line
  else ret (Line o).

Definition openInEditor (path editor : string) : M Options unit :=
  let args := [path] in
  line <- targetLine path ;;
  let args :=
    if decide (line <> "") then
      if decide (editor = "idea") then ["--line"; line; path]
      else if decide (editor = "code") then ["-g"; path +:+ ":" +:+ line]
      else args
    else args in
  let c := {| CmdName := editor; Args := args |} in
  wrapf (runCommand c) ("failed to open editor via command: " +:+ CLI c) ;;
  ret tt.

(** *** displayPipeline *)

Definition setOutFile (f : string) (o : Options) : Options :=
  {| Dir := Dir o; Namespace := Namespace o; OutFile := f;
     TriggerName := TriggerName o; PipelineName := PipelineName o;
     Editor := Editor o; Line := Line o; Recursive := Recursive o;
     Resolver := Resolver o; Triggers := Triggers o; Input := Input o;
     CommandRunner := CommandRunner o |}.

(** The first block of [displayPipeline]: lets create an output file if
    using editor. *)
Definition createOutFile (name : string) : M Options unit :=
  o <- get ;;
  if decide (Editor o <> "" /\ OutFile o = "") then
    absRootDir <- try (Abs (Dir o)) ;;
    let fileName :=
      match absRootDir with
      | Some a => snd (Filepath.Split a)
      | None => ""
      end in
    let fileName :=
      if decide (fileName = "" \/ String.length fileName = 1%nat)
      then "jx-pipeline" else fileName in
    let tmpFileName :=
      fileName +:+ "-"
      +:+ Strings.ReplaceAll name Filepath.PathSeparator "-"
      +:+ "-*.yaml" in
    tmpFile <- wrapf (TempFile "" tmpFileName) "failed to create temp file" ;;
    modify (setOutFile tmpFile)
  else ret tt.

(** The rest of [displayPipeline]: save and open, or print. *)
Definition writePipeline (trigger : Trigger) (name : string)
  (pipeline : PipelineRun) : M Options unit :=
  o <- get ;;
  if decide (OutFile o <> "") then
    wrapf (ask (fun tr => SaveFile env tr pipeline (OutFile o))
             (EvSaveFile pipeline (OutFile o)))
      ("failed to save file " +:+ OutFile o) ;;
    Infof ("saved file " +:+ ColorInfo env (OutFile o)) ;;
    if decide (Editor o <> "") then openInEditor (OutFile o) (Editor o)
    else ret tt
  else
    match Marshal env pipeline with
    | Ok data =>
        Infof ("trigger " +:+ ColorInfo env (Path trigger)
               +:+ " pipeline " +:+ ColorInfo env name) ;;
        Print data
    | Fail e => fail (ErrWrapf e ("failed to marshal pipeline for " +:+ name))
    | Panic => panic
    end.

Definition displayPipeline (trigger : Trigger) (name : string)
  (pipeline : PipelineRun) : M Options unit :=
  createOutFile name ;;
  writePipeline trigger name pipeline.

(** *** processTriggers *)

Definition PickNameWithDefault (names : list string)
  (message defaultValue help : string) : M Options string :=
  o <- get ;;
  match Input o with
  | None => panic
  | Some pick =>
      ask (fun tr => pick tr names message defaultValue help)
        (EvPickNameWithDefault names message defaultValue help)
  end.

(** The map [m] of [processTriggers], from the path of a trigger to the
    trigger. *)
Definition triggersByPath (ts : list Trigger) : gmap string Trigger :=
  foldl (fun m trigger => <[Path trigger := trigger]> m) ∅ ts.

Definition processTriggers : M Options unit :=
  o <- get ;;
  let names := Path <$> Triggers o in
  let m := triggersByPath (Triggers o) in
  name <- (if decide (TriggerName o = "") then
             name <- wrapf (PickNameWithDefault names
                              "pick the trigger config: " ""
                              "select the set of triggers to process")
                       "failed to pick trigger file" ;;
             if decide (name = "")
             then fail (ErrErrorf "no trigger file selected")
             else ret name
           else ret (TriggerName o)) ;;
  match m !! name with
  | None =>
      fail (ErrInvalidOption "trigger" (TriggerName o)
              ("available names " +:+ Strings.Join names ", "))
  | Some trigger =>
      pipelineName <-
        (if decide (PipelineName o = "") then
           pipelineName <- wrapf (PickNameWithDefault (Names trigger)
                                    "pick the pipeline: " ""
                                    "select the pipeline to view")
                             "failed to pick trigger file" ;;
           if decide (pipelineName = "")
           then fail (ErrErrorf "no trigger file selected")
           else ret pipelineName
         else ret (PipelineName o)) ;;
      match Pipelines trigger !! pipelineName with
      | Some (Some pipeline) => displayPipeline trigger pipelineName pipeline
      | _ =>
          fail (ErrInvalidOption "pipeline" (PipelineName o)
                  ("available names "
                   +:+ Strings.Join (Names trigger) ", "))
      end
  end.

(** *** Validate *)

Definition setInput (i : option Picker) (o : Options) : Options :=
  {| Dir := Dir o; Namespace := Namespace o; OutFile := OutFile o;
     TriggerName := TriggerName o; PipelineName := PipelineName o;
     Editor := Editor o; Line := Line o; Recursive := Recursive o;
     Resolver := Resolver o; Triggers := Triggers o; Input := i;
     CommandRunner := CommandRunner o |}.

Definition setResolver (r : option UsesResolver) (o : Options) : Options :=
  {| Dir := Dir o; Namespace := Namespace o; OutFile := OutFile o;
     TriggerName := TriggerName o; PipelineName := PipelineName o;
     Editor := Editor o; Line := Line o; Recursive := Recursive o;
     Resolver := r; Triggers := Triggers o; Input := Input o;
     CommandRunner := CommandRunner o |}.

Definition setCommandRunner (c : option Runner) (o : Options) : Options :=
  {| Dir := Dir o; Namespace := Namespace o; OutFile := OutFile o;
     TriggerName := TriggerName o; PipelineName := PipelineName o;
     Editor := Editor o; Line := Line o; Recursive := Recursive o;
     Resolver := Resolver o; Triggers := Triggers o; Input := Input o;
     CommandRunner := c |}.

Definition setEditor (e : string) (o : Options) : Options :=
  {| Dir := Dir o; Namespace := Namespace o; OutFile := OutFile o;
     TriggerName := TriggerName o; PipelineName := PipelineName o;
     Editor := e; Line := Line o; Recursive := Recursive o;
     Resolver := Resolver o; Triggers := Triggers o; Input := Input o;
     CommandRunner := CommandRunner o |}.

Definition Validate : M Options unit :=
  wrapf (ask (BaseOptions_Validate env) EvBaseValidate)
    "failed to validate base options" ;;
  o <- get ;;
  (if decide (Input o = None) then
     input <- observe (NewInput env) EvNewInput ;;
     modify (setInput (Some input))
   else ret tt) ;;
  o <- get ;;
  (if decide (Resolver o = None) then
     resolver <- wrapf (ask (CreateResolver env) EvCreateResolver)
                   "failed to create a UsesResolver" ;;
     modify (setResolver resolver)
   else ret tt) ;;
  o <- get ;;
  (if decide (CommandRunner o = None) then
     modify (setCommandRunner (Some (QuietCommandRunner env)))
   else ret tt) ;;
  o <- get ;;
  (if decide (Editor o = "") then
     editor <- observe (fun tr => Getenv env tr "JX_EDITOR")
                 (EvGetenv "JX_EDITOR") ;;
     modify (setEditor editor)
   else ret tt) ;;
  ret tt.

(** *** filepath.Walk *)

(** The callback of a walk: the path, the [os.FileInfo] when the entry
    could be stat'ed, and the error met on the way to it.  The callback of
    [Run] never answers [filepath.SkipDir], so that an error it returns
    ends the walk. *)
Definition WalkFunc :=
  string -> option FileInfo -> option Error -> M Options unit.

Definition nodeName (n : FsNode) : string :=
  match n with
  | FsFile name | FsDir name _ | FsUnreadable name _ | FsBroken name _ =>
      name
  end.

(** [walk] of package [filepath], and the part of [Walk] for a root that
    cannot be stat'ed: a file is handed to the callback; a directory is
    listed first, then handed to the callback together with the error of
    the listing, then its entries are walked in order. *)
Fixpoint walk (walkFn : WalkFunc) (path : string) (n : FsNode)
  : M Options unit :=
  match n with
  | FsFile name =>
      walkFn path (Some {| FileName := name; IsDir := false |}) None
  | FsBroken name e => walkFn path None (Some e)
  | FsUnreadable name e =>
      walkFn path (Some {| FileName := name; IsDir := true |}) (Some e)
  | FsDir name entries =>
      walkFn path (Some {| FileName := name; IsDir := true |}) None ;;
      forEach entries (fun c =>
        walk walkFn (Filepath.Join path (nodeName c)) c)
  end.

Definition Walk (root : string) (fn : WalkFunc) : M Options unit :=
  tree <- observe (fun tr => FileTree env tr root) (EvWalk root) ;;
  walk fn root tree.

(** *** Run *)

(** The callback [Run] walks the root directory with. *)
Definition lighthouseWalkFn : WalkFunc :=
  fun path info err =>
    match err with
    | Some e => fail e
    | None =>
        match info with
        | None => ret tt
        | Some info =>
            if negb (IsDir info)
               || negb (bool_decide (FileName info = ".lighthouse"))
            then ret tt
            else ProcessDir path
        end
    end.

Definition Run : M Options unit :=
  wrapf Validate "failed to validate options" ;;
  o <- get ;;
  let rootDir := Dir o in
  (if Recursive o then Walk rootDir lighthouseWalkFn
   else
     let dir := Filepath.Join rootDir ".lighthouse" in
     ProcessDir dir) ;;
  processTriggers.

(** Whether a file tree has a directory named [.lighthouse], and the
    errors a walk of it can meet. *)
Fixpoint hasLighthouse (n : FsNode) : bool :=
  match n with
  | FsFile _ | FsBroken _ _ => false
  | FsUnreadable name _ => bool_decide (name = ".lighthouse")
  | FsDir name entries =>
      bool_decide (name = ".lighthouse") || existsb hasLighthouse entries
  end.

Fixpoint treeErrors (n : FsNode) : list Error :=
  match n with
  | FsFile _ => []
  | FsBroken _ e | FsUnreadable _ e => [e]
  | FsDir _ entries => flat_map treeErrors entries
  end.

(** ** The vocabulary of the properties *)

(** A computation that adds to the trace, and adds only events that
    satisfy [P]. *)
Definition emits {X A} (P : Event -> Prop) (m : M X A) : Prop :=
  forall s, exists evs, snd (snd (m s)) = snd s ++ evs /\ Forall P evs.

(** The events of [Validate]. *)
Definition validation (ev : Event) : Prop :=
  ev = EvBaseValidate \/ ev = EvNewInput \/ ev = EvCreateResolver
  \/ ev = EvGetenv "JX_EDITOR".

(** The job names of a trigger are the keys of its pipelines. *)
Definition keysAgree (t : Trigger) : Prop :=
  forall x, x ∈ Names t <-> is_Some (Pipelines t !! x).

(** An entry of a [.lighthouse] directory that [ProcessDir] looks into, and
    the trigger file it looks for there. *)
Definition candidate (f : FileInfo) : Prop :=
  IsDir f = true /\ Strings.HasPrefix (FileName f) "." = false.

Definition triggersFileOf (dir : string) (f : FileInfo) : string :=
  Filepath.Join (Filepath.Join dir (FileName f)) "triggers.yaml".

(** The directories named [.lighthouse] of a file tree, in the order a walk
    meets them. *)
Fixpoint lighthouseDirs (path : string) (n : FsNode) : list string :=
  match n with
  | FsDir name entries =>
      (if decide (name = ".lighthouse") then [path] else [])
      ++ flat_map (fun c => lighthouseDirs (Filepath.Join path (nodeName c)) c)
           entries
  | _ => []
  end.

(** Collaborators that do not panic. *)
Definition quietPicker (pick : Picker) : Prop :=
  forall tr names message defaultValue help,
    pick tr names message defaultValue help <> Panic.

Definition quietRunner (run : Runner) : Prop :=
  forall tr c, run tr c <> Panic.

Definition quietEnv : Prop :=
  (forall tr, BaseOptions_Validate env tr <> Panic)
  /\ (forall tr, quietPicker (NewInput env tr))
  /\ (forall tr, CreateResolver env tr <> Panic)
  /\ quietRunner (QuietCommandRunner env)
  /\ (forall tr dir, ReadDir env tr dir <> Panic)
  /\ (forall tr path, FileExists env tr path <> Panic)
  /\ (forall tr path, LoadFile env tr path <> Panic)
  /\ (forall tr r path, LoadEffectivePipelineRun env tr r path <> Panic)
  /\ (forall tr, Getwd env tr <> Panic)
  /\ (forall tr dir prefix suffix, CreateTemp env tr dir prefix suffix <> Panic)
  /\ (forall tr p path, SaveFile env tr p path <> Panic)
  /\ (forall p, Marshal env p <> Panic)
  /\ (forall tr path, ReadFile env tr path <> Panic).

(** Options whose picker and command runner, where given, do not panic;
    and options that have both. *)
Definition quietOptions (o : Options) : Prop :=
  (forall pick, Input o = Some pick -> quietPicker pick)
  /\ (forall run, CommandRunner o = Some run -> quietRunner run).

Definition ready (o : Options) : Prop :=
  (exists pick, Input o = Some pick /\ quietPicker pick)
  /\ (exists run, CommandRunner o = Some run /\ quietRunner run).

(** A computation that does not panic from a receiver that satisfies [I],
    and keeps [I]. *)
Definition unfailing {X A} (I : X -> Prop) (m : M X A) : Prop :=
  forall s, I (fst s) -> fst (m s) <> Panic /\ I (fst (snd (m s))).

(** A trigger whose job specs have the source paths of those of [c], one
    by one. *)
Definition sameSources (c : TriggerConfig) (t : Trigger) : Prop :=
  SourcePath <$> Presubmits (Spec (Config t))
  = SourcePath <$> Presubmits (Spec c)
  /\ SourcePath <$> Postsubmits (Spec (Config t))
     = SourcePath <$> Postsubmits (Spec c).

#[global] Instance candidate_dec (f : FileInfo) : Decision (candidate f).
Proof. unfold candidate. apply _. Defined.

(** The events of a selection: the pick lists shown. *)
Definition picking (ev : Event) : Prop :=
  exists names message defaultValue help,
    ev = EvPickNameWithDefault names message defaultValue help.

(** What goes to the standard output, and what only a run with an editor
    does: asking for the working directory, creating a temporary file,
    reading the saved file back and starting a command. *)
Definition printed (ev : Event) : Prop := exists data, ev = EvPrint data.

Definition editing (ev : Event) : Prop :=
  ev = EvGetwd
  \/ (exists dir prefix suffix, ev = EvTempFile dir prefix suffix)
  \/ (exists path, ev = EvReadFile path)
  \/ (exists c, ev = EvCommand c).

(** What touches a file or starts a command. *)
Definition saving (ev : Event) : Prop :=
  editing ev \/ exists pipeline path, ev = EvSaveFile pipeline path.

(** A computation whose errors all satisfy [P]. *)
Definition failsWith {X A} (P : Error -> Prop) (m : M X A) : Prop :=
  forall s e, fst (m s) = Fail e -> P e.

(** An error the command has given a context, or has made itself: one
    built by [errors.Wrapf], the error of an empty pick, and the invalid
    option error with the names there are. *)
Definition described (e : Error) : Prop :=
  (exists cause msg, e = ErrWrapf cause msg)
  \/ e = ErrErrorf "no trigger file selected"
  \/ exists option value names,
       e = ErrInvalidOption option value ("available names " +:+ names).

(** The options of the command line that a run only reads. *)
Definition flags (o : Options)
  : string * string * string * string * string * bool :=
  (Dir o, Namespace o, TriggerName o, PipelineName o, Line o, Recursive o).

End Effective.

Notation "x <- m ;; k" := (bind m (fun x => k))
  (at level 100, m at next level, right associativity).
Notation "m ;; k" := (bind m (fun _ => k))
  (at level 100, right associativity).

(** ** A small world to run the command in

    A repository with [.lighthouse/pr/triggers.yaml], next to a hidden
    directory, a plain file and a directory without triggers.  Pipelines are
    represented by their YAML text. *)

Module Example.

Definition nl : string := bytes [10].

Definition pipelineYaml : string :=
  Strings.Join ["apiVersion: tekton.dev/v1beta1"; "kind: PipelineRun";
                "metadata:"; "  name: pr"; "spec:"; "  pipelineSpec:";
                "    tasks:"; "    - name: from-build-pack";
                "      taskSpec:"; "        steps:"; "";
                "        - image: golang"; "          name: build"; ""] nl.

Definition job (name sourcePath agent : string) (spec : option unit)
  : @JobBase unit :=
  {| Name := name; SourcePath := sourcePath; Agent := agent;
     PipelineRunSpec := spec |}.

Definition config : @TriggerConfig unit :=
  {| Spec := {|
       Presubmits := [job "pr" "pipeline.yaml" "" None;
                      job "lint" "" "" (Some tt);
                      job "legacy" "" "jenkins" (Some tt)];
       Postsubmits := [job "release" "release.yaml" "" (Some tt)] |} |}.

Definition tree : FsNode :=
  FsDir "repo"
    [FsDir ".lighthouse"
       [FsDir ".hidden" []; FsFile "README.md"; FsDir "empty" [];
        FsDir "pr" [FsFile "pipeline.yaml"; FsFile "release.yaml";
                    FsFile "triggers.yaml"]];
     FsFile "main.go"].

Definition plainTree : FsNode :=
  FsDir "repo" [FsDir "docs" [FsFile "index.md"]; FsFile "main.go"].

Definition picker : @Picker string :=
  fun _ names _ _ _ => Ok (default "" (head names)).

Definition cancelled : @Picker string := fun _ _ _ _ _ => Ok "".

Definition runner : @Runner string := fun _ _ => Ok "".

Definition env (t : FsNode) : @Env string unit unit :=
  {| BaseOptions_Validate := fun _ => Ok tt;
     NewInput := fun _ => picker;
     CreateResolver := fun _ => Ok (Some tt);
     QuietCommandRunner := runner;
     Getenv := fun _ _ => "";
     FileTree := fun _ _ => t;
     ReadDir := fun _ dir =>
       if decide (dir = ".lighthouse") then
         Ok [ {| FileName := ".hidden"; IsDir := true |};
              {| FileName := "README.md"; IsDir := false |};
              {| FileName := "empty"; IsDir := true |};
              {| FileName := "pr"; IsDir := true |} ]
       else Fail (ErrExternal ("open " +:+ dir +:+ ": no such file or directory"));
     FileExists := fun _ path =>
       Ok (bool_decide (path = ".lighthouse/pr/triggers.yaml"));
     LoadFile := fun _ _ => Ok config;
     LoadEffectivePipelineRun := fun _ _ path =>
       if decide (path = ".lighthouse/pr/pipeline.yaml"
                  \/ path = ".lighthouse/pr/release.yaml")
       then Ok (Some pipelineYaml)
       else Fail (ErrExternal ("open " +:+ path +:+ ": no such file or directory"));
     TektonPipelineAgent := "tekton-pipeline";
     Getwd := fun _ => Ok "/home/dev/repo";
     TempDir := "/tmp";
     CreateTemp := fun _ _ _ _ => Ok "123456789";
     SaveFile := fun _ _ _ => Ok tt;
     Marshal := fun p => Ok p;
     ColorInfo := fun s => s;
     ReadFile := fun _ _ => Ok pipelineYaml |}.

(** The same world, with no [triggers.yaml] anywhere. *)
Definition bare : @Env string unit unit :=
  let e := env tree in
  {| BaseOptions_Validate := BaseOptions_Validate e;
     NewInput := NewInput e;
     CreateResolver := CreateResolver e;
     QuietCommandRunner := QuietCommandRunner e;
     Getenv := Getenv e;
     FileTree := FileTree e;
     ReadDir := ReadDir e;
     FileExists := fun _ _ => Ok false;
     LoadFile := LoadFile e;
     LoadEffectivePipelineRun := LoadEffectivePipelineRun e;
     TektonPipelineAgent := TektonPipelineAgent e;
     Getwd := Getwd e;
     TempDir := TempDir e;
     CreateTemp := CreateTemp e;
     SaveFile := SaveFile e;
     Marshal := Marshal e;
     ColorInfo := ColorInfo e;
     ReadFile := ReadFile e |}.

Definition options (dir : string) (recursive : bool)
  (trigger pipeline editor line : string)
  (input : option (@Picker string)) : @Options string unit unit :=
  {| Dir := dir; Namespace := ""; OutFile := "";
     TriggerName := trigger; PipelineName := pipeline;
     Editor := editor; Line := line; Recursive := recursive;
     Resolver := None; Triggers := []; Input := input;
     CommandRunner := None |}.

Definition trigger : @Trigger string unit :=
  {| Path := ".lighthouse/pr/triggers.yaml"; Config := config;
     Names := []; Pipelines := ∅ |}.

Definition world : @Env string unit unit := env tree.

(** The options of a plain [jx pipeline effective], and with an editor
    asked for. *)
Definition quiet : @Options string unit unit :=
  options "." false "" "" "" "" None.

Definition withEditor (editor line : string) : @Options string unit unit :=
  {| Dir := "."; Namespace := ""; OutFile := "";
     TriggerName := ""; PipelineName := "";
     Editor := editor; Line := line; Recursive := false;
     Resolver := Some tt; Triggers := []; Input := Some picker;
     CommandRunner := Some runner |}.

(** The options once validated and the directory scanned. *)
Definition scanned (o : @Options string unit unit)
  : @Options string unit unit :=
  fst (snd ((Validate (env tree) ;; ProcessDir (env tree) ".lighthouse")
              (o, []))).

(** The same world, with base options that do not validate, and with a
    saved file that cannot be read back. *)
Definition locked : @Env string unit unit :=
  let e := env tree in
  {| BaseOptions_Validate := fun _ => Fail (ErrExternal "no kubeconfig");
     NewInput := NewInput e;
     CreateResolver := CreateResolver e;
     QuietCommandRunner := QuietCommandRunner e;
     Getenv := Getenv e;
     FileTree := FileTree e;
     ReadDir := ReadDir e;
     FileExists := FileExists e;
     LoadFile := LoadFile e;
     LoadEffectivePipelineRun := LoadEffectivePipelineRun e;
     TektonPipelineAgent := TektonPipelineAgent e;
     Getwd := Getwd e;
     TempDir := TempDir e;
     CreateTemp := CreateTemp e;
     SaveFile := SaveFile e;
     Marshal := Marshal e;
     ColorInfo := ColorInfo e;
     ReadFile := ReadFile e |}.

Definition unreadable : @Env string unit unit :=
  let e := env tree in
  {| BaseOptions_Validate := BaseOptions_Validate e;
     NewInput := NewInput e;
     CreateResolver := CreateResolver e;
     QuietCommandRunner := QuietCommandRunner e;
     Getenv := Getenv e;
     FileTree := FileTree e;
     ReadDir := ReadDir e;
     FileExists := FileExists e;
     LoadFile := LoadFile e;
     LoadEffectivePipelineRun := LoadEffectivePipelineRun e;
     TektonPipelineAgent := TektonPipelineAgent e;
     Getwd := Getwd e;
     TempDir := TempDir e;
     CreateTemp := CreateTemp e;
     SaveFile := SaveFile e;
     Marshal := Marshal e;
     ColorInfo := ColorInfo e;
     ReadFile := fun _ path =>
       Fail (ErrExternal ("open " +:+ path +:+ ": permission denied")) |}.

(** The options of [--out out.yaml --editor code]. *)
Definition toFile : @Options string unit unit :=
  {| Dir := "."; Namespace := ""; OutFile := "out.yaml";
     TriggerName := ""; PipelineName := "";
     Editor := "code"; Line := ""; Recursive := false;
     Resolver := Some tt; Triggers := []; Input := Some picker;
     CommandRunner := Some runner |}.

(** The options of [--trigger T --pipeline P], once validated and the
    directory scanned. *)
Definition named (trigger pipeline : string) : @Options string unit unit :=
  scanned (options "." false trigger pipeline "" "" None).

End Example.

(** * Properties *)

(** ** Library facts *)

Example Split_lines :
  Strings.Split ("a" +:+ bytes [10] +:+ "b" +:+ bytes [10]) (bytes [10])
  = ["a"; "b"; ""].
Proof. reflexivity. Qed.

Example Split_sep2 : Strings.Split "a, b,, c" ", " = ["a"; "b,"; "c"].
Proof. reflexivity. Qed.

Example ReplaceAll_slash :
  Strings.ReplaceAll "presubmit/pr" "/" "-" = "presubmit-pr".
Proof. reflexivity. Qed.

Example TrimSpace_steps :
  Strings.TrimSpace (bytes [32; 9; 194; 160] +:+ "steps:" +:+ bytes [226; 128; 137; 13])
  = "steps:".
Proof. vm_compute. reflexivity. Qed.

Example TrimSpace_inner : Strings.TrimSpace " a b " = "a b".
Proof. vm_compute. reflexivity. Qed.

Example Itoa_11 : Strconv.Itoa (Strconv.add 9 2) = "11".
Proof. reflexivity. Qed.

Example Itoa_neg : Strconv.Itoa (-7)%Z = "-7".
Proof. reflexivity. Qed.

Example Clean_paths :
  Filepath.Clean <$> ["abc//def//ghi"; "abc/./../def"; "/../abc";
                      "abc/def/../../.."; ""; "../../abc/"]
  = ["abc/def/ghi"; "def"; "/abc"; ".."; "."; "../../abc"].
Proof. vm_compute. reflexivity. Qed.

Example Join_triggers :
  Filepath.Join (Filepath.Join ".lighthouse" "pr") "triggers.yaml"
  = ".lighthouse/pr/triggers.yaml".
Proof. vm_compute. reflexivity. Qed.

Example Split_path : Filepath.Split "/home/dev/repo" = ("/home/dev/", "repo").
Proof. vm_compute. reflexivity. Qed.

(** The end-to-end run of the specification: with [--trigger] and
    [--pipeline] and neither [--out] nor an editor, the resolved document is
    printed after a line that names the trigger and the pipeline. *)
Example Run_prints :
  let out := Run Example.world
               (Example.options "." false ".lighthouse/pr/triggers.yaml"
                  "presubmit/pr" "" "" None, []) in
  fst out = Ok tt
  /\ drop 10 (snd (snd out))
     = [EvInfof "trigger .lighthouse/pr/triggers.yaml pipeline presubmit/pr";
        EvPrint Example.pipelineYaml].
Proof. vm_compute. split; reflexivity. Qed.

(** The same with an editor: the document is saved in a temporary file and
    the editor opened on the line after [steps:]. *)
Example Run_opens_editor :
  let out := Run Example.world
               (Example.options "." false "" "" "code" "" None, []) in
  fst out = Ok tt
  /\ last (snd (snd out))
     = Some (EvCommand
               {| CmdName := "code";
                  Args := ["-g"; "/tmp/repo-presubmit-pr-123456789.yaml:11"] |}).
Proof. vm_compute. split; reflexivity. Qed.

Lemma wrap_small (z : Z) : (- 2 ^ 63 <= z < 2 ^ 63)%Z -> Strconv.wrap z = z.
Proof.
  intros Hz. unfold Strconv.wrap.
  rewrite Z.mod_small by lia. lia.
Qed.

Lemma Itoa_nonempty (z : Z) : Strconv.Itoa z <> "".
Proof.
  unfold Strconv.Itoa, NilZero.string_of_int.
  destruct (Z.to_int z) as [d | d]; [| discriminate].
  unfold NilZero.string_of_uint. destruct d; discriminate.
Qed.

Section Properties.

Context {PipelineRun PipelineRunSpecT UsesResolver : Type}.
Variable env : @Env PipelineRun PipelineRunSpecT UsesResolver.

Implicit Types (o : @Options PipelineRun PipelineRunSpecT UsesResolver).
Implicit Types (t : @Trigger PipelineRun PipelineRunSpecT).
Implicit Types (r : @JobBase PipelineRunSpecT).
Implicit Types (tr : @Trace PipelineRun).

(** Unfolds the monad at the head of a goal. *)
Ltac mrun :=
  repeat (unfold bind, ret, get, modify, fail, panic, ask, observe, emit,
            wrapf, try, Infof, Print; cbn [fst snd]).

(** ** The line of the first [steps:] *)

Lemma firstStepLine_found (k i : nat) (lines : list string) (line : string) :
  lines !! i = Some line ->
  Strings.TrimSpace line = "steps:" ->
  (forall j l, (j < i)%nat -> lines !! j = Some l ->
               Strings.TrimSpace l <> "steps:") ->
  firstStepLine k lines
  = Some (Strconv.Itoa (Strconv.add (Z.of_nat (k + i)) 2)).
Proof.
  revert k i. induction lines as [| l0 rest IH]; intros k i Hi Hline Hfirst.
  - discriminate.
  - destruct i as [| i]; cbn in Hi |- *.
    + injection Hi as ->. rewrite decide_True by done.
      by rewrite Nat.add_0_r.
    + rewrite decide_False by (apply (Hfirst 0%nat); [lia | done]).
      rewrite (IH (S k) i Hi Hline).
      * do 3 f_equal. lia.
      * intros j l Hj Hl. apply (Hfirst (S j)); [lia | done].
Qed.

Lemma firstStepLine_none (k : nat) (lines : list string) :
  (forall l, l ∈ lines -> Strings.TrimSpace l <> "steps:") ->
  firstStepLine k lines = None.
Proof.
  revert k. induction lines as [| l0 rest IH]; intros k Hnone; [done |].
  cbn. rewrite decide_False by (apply Hnone; left).
  apply IH. intros l Hl. apply Hnone. by right.
Qed.

(** C3. The line the editor is opened at.  With [--line] it is that value
    and the file is not read.  Without, the saved file is read and split
    into lines: when the line at (0-indexed) position [i] is the first one
    whose trimmed content is [steps:], the line is [i + 2] (a slice of
    lines that fits in memory keeps [i + 2] below [2^63]); when there is
    no such line it is the fixed [161]. *)
Theorem editor_target_line o tr (path : string) :
  (Line o <> "" ->
   targetLine env path (o, tr) = (Ok (Line o), (o, tr)))
  /\ (Line o = "" ->
      forall data, ReadFile env tr path = Ok data ->
      let lines := Strings.Split data (bytes [10]) in
      (forall (i : nat) line,
          lines !! i = Some line ->
          Strings.TrimSpace line = "steps:" ->
          (forall j l, (j < i)%nat -> lines !! j = Some l ->
                       Strings.TrimSpace l <> "steps:") ->
          (Z.of_nat i + 2 < 2 ^ 63)%Z ->
          targetLine env path (o, tr)
          = (Ok (Strconv.Itoa (Z.of_nat i + 2)),
             (o, tr ++ [EvReadFile path])))
      /\ ((forall l, l ∈ lines -> Strings.TrimSpace l <> "steps:") ->
          targetLine env path (o, tr)
          = (Ok "161",
             (o, tr ++ [EvReadFile path;
                        EvInfof "could not find line with 'steps:'"])))).
Proof.
  split.
  - intros Hline. unfold targetLine. mrun.
    by rewrite decide_False.
  - intros Hline data Hdata lines. split.
    + intros i line Hi Htrim Hfirst Hbound.
      unfold targetLine, findFirstStepLine. mrun.
      rewrite decide_True by done. mrun. rewrite Hdata.
      fold lines.
      rewrite (firstStepLine_found 0 i lines line Hi Htrim Hfirst).
      mrun. unfold Strconv.add. rewrite wrap_small by lia.
      by rewrite decide_False by apply Itoa_nonempty.
    + intros Hnone.
      unfold targetLine, findFirstStepLine. mrun.
      rewrite decide_True by done. mrun. rewrite Hdata.
      fold lines. rewrite (firstStepLine_none 0 lines Hnone).
      mrun. by rewrite <- app_assoc.
Qed.

(** ** The command line of the editor *)

Lemma targetLine_nonempty o tr (path N : string) s' :
  targetLine env path (o, tr) = (Ok N, s') -> N <> "".
Proof.
  unfold targetLine, findFirstStepLine. mrun.
  destruct (decide (Line o = "")) as [Hl | Hl]; mrun.
  - destruct (ReadFile env tr path) as [data | e |]; [| discriminate ..].
    destruct (firstStepLine 0 _) as [line |]; mrun.
    + destruct (decide (line = "")); intros [= <- _]; done.
    + intros [= <- _]. done.
  - intros [= <- _]. done.
Qed.

(** C8. The arguments the editor is started with, for the line [N] that
    was supplied or computed and the saved path [P]: [--line N P] for
    [idea], [-g P:N] for [code], and [P] alone for any other editor. *)
Theorem editor_arguments o tr (path editor N : string) o' tr'
    (run : @Runner PipelineRun) :
  targetLine env path (o, tr) = (Ok N, (o', tr')) ->
  CommandRunner o' = Some run ->
  exists args,
    (editor = "idea" -> args = ["--line"; N; path])
    /\ (editor = "code" -> args = ["-g"; path +:+ ":" +:+ N])
    /\ (editor <> "idea" -> editor <> "code" -> args = [path])
    /\ let c := {| CmdName := editor; Args := args |} in
       openInEditor env path editor (o, tr)
       = (match run tr' c with
          | Ok _ => Ok tt
          | Fail e =>
              Fail (ErrWrapf e
                      ("failed to open editor via command: " +:+ CLI c))
          | Panic => Panic
          end,
          (o', tr' ++ [EvCommand c])).
Proof.
  intros Hline Hrun.
  pose proof (targetLine_nonempty _ _ _ _ _ Hline) as HN.
  exists (if decide (editor = "idea") then ["--line"; N; path]
          else if decide (editor = "code") then ["-g"; path +:+ ":" +:+ N]
          else [path]).
  split; [| split; [| split]].
  - intros ->. done.
  - intros ->. done.
  - intros H1 H2. by rewrite !decide_False.
  - unfold openInEditor. unfold bind at 1. rewrite Hline.
    rewrite (decide_True _ _ HN).
    unfold runCommand. mrun. rewrite Hrun. mrun.
    by destruct (run _ _).
Qed.

(** ** Selection *)

Lemma foldl_insert_lookup (m : gmap string Trigger) (ts : list Trigger)
    (name : string) :
  foldl (fun m trigger => <[Path trigger := trigger]> m) m ts !! name
  = match last (filter (fun t => Path t = name) ts) with
    | Some t => Some t
    | None => m !! name
    end.
Proof.
  revert m. induction ts as [| t ts IH]; intros m; [done |].
  cbn [foldl]. rewrite IH.
  destruct (decide (Path t = name)) as [Heq | Hne].
  - rewrite filter_cons_True by done. rewrite last_cons.
    destruct (last _); [done |]. by rewrite Heq, lookup_insert_eq.
  - rewrite filter_cons_False by done.
    destruct (last _); [done |]. by rewrite lookup_insert_ne.
Qed.

Lemma triggersByPath_lookup (ts : list Trigger) (name : string) :
  triggersByPath ts !! name = last (filter (fun t => Path t = name) ts).
Proof.
  unfold triggersByPath. rewrite foldl_insert_lookup.
  by destruct (last _).
Qed.

Lemma triggersByPath_unknown (ts : list Trigger) (name : string) :
  (forall t, t ∈ ts -> Path t <> name) -> triggersByPath ts !! name = None.
Proof.
  intros Hne. rewrite triggersByPath_lookup.
  apply last_None. induction ts as [| t ts IH]; [done |].
  rewrite filter_cons_False by (apply Hne; left).
  apply IH. intros t' Ht'. apply Hne. by right.
Qed.

(** C5. A [--trigger] value which is the path of no discovered trigger
    fails the run with the invalid option error, whose message lists the
    paths of all discovered triggers. *)
Theorem unknown_trigger_rejected o tr :
  TriggerName o <> "" ->
  (forall t, t ∈ Triggers o -> Path t <> TriggerName o) ->
  processTriggers env (o, tr)
  = (Fail (ErrInvalidOption "trigger" (TriggerName o)
             ("available names "
              +:+ Strings.Join (Path <$> Triggers o) ", ")),
     (o, tr)).
Proof.
  intros Hname Hunknown. unfold processTriggers. mrun.
  rewrite decide_False by done. mrun.
  by rewrite (triggersByPath_unknown _ _ Hunknown).
Qed.

(** C6. Without an explicit name, an empty answer of the pick list fails
    the run with [no trigger file selected]: at the pick of the trigger,
    and in the same way, with the same message, at the pick of the
    pipeline of the trigger [t] that was named or picked. *)
Theorem empty_pick_rejected o tr (pick : @Picker PipelineRun) :
  Input o = Some pick ->
  let pickTrigger :=
    EvPickNameWithDefault (Path <$> Triggers o) "pick the trigger config: "
      "" "select the set of triggers to process" in
  (TriggerName o = "" ->
   pick tr (Path <$> Triggers o) "pick the trigger config: " ""
     "select the set of triggers to process" = Ok "" ->
   processTriggers env (o, tr)
   = (Fail (ErrErrorf "no trigger file selected"), (o, tr ++ [pickTrigger])))
  /\ (forall (name : string) tr1 t,
        (TriggerName o <> "" /\ name = TriggerName o /\ tr1 = tr
         \/ TriggerName o = "" /\ name <> ""
            /\ pick tr (Path <$> Triggers o) "pick the trigger config: " ""
                 "select the set of triggers to process" = Ok name
            /\ tr1 = tr ++ [pickTrigger]) ->
        last (filter (fun t => Path t = name) (Triggers o)) = Some t ->
        PipelineName o = "" ->
        pick tr1 (Names t) "pick the pipeline: " ""
          "select the pipeline to view" = Ok "" ->
        processTriggers env (o, tr)
        = (Fail (ErrErrorf "no trigger file selected"),
           (o, tr1 ++ [EvPickNameWithDefault (Names t) "pick the pipeline: "
                         "" "select the pipeline to view"]))).
Proof.
  intros Hinput pickTrigger. split.
  - intros Hname Hpick. unfold processTriggers, PickNameWithDefault. mrun.
    rewrite decide_True by done. mrun. rewrite Hinput. mrun.
    rewrite Hpick. by rewrite decide_True.
  - intros name tr1 t Hsel Ht Hpipeline Hpick.
    rewrite <- triggersByPath_lookup in Ht.
    unfold processTriggers, PickNameWithDefault. mrun.
    destruct Hsel as [(Hname & -> & ->) | (Hname & Hne & Hpick1 & ->)].
    + rewrite decide_False by done. mrun. rewrite Ht.
      rewrite decide_True by done. mrun. rewrite Hinput. mrun.
      rewrite Hpick. by rewrite decide_True.
    + rewrite decide_True by done. mrun. rewrite Hinput. mrun.
      rewrite Hpick1. rewrite decide_False by done. mrun. rewrite Ht.
      rewrite decide_True by done. mrun. rewrite Hinput. mrun.
      fold pickTrigger. rewrite Hpick. by rewrite decide_True.
Qed.

(** ** Loading the pipelines of a trigger *)

Lemma forEach_cons {X A} (x : A) (l : list A)
    (body : A -> @M PipelineRun X unit) s :
  forEach (x :: l) body s
  = match body x s with
    | (Ok _, s') => forEach l body s'
    | (Fail e, s') => (Fail e, s')
    | (Panic, s') => (Panic, s')
    end.
Proof. reflexivity. Qed.

(** The two loops of [loadTriggerPipelines] differ in the list they walk
    and in the prefix of the qualified name: one invariant serves both. *)
Section Loop.

Variables (o : @Options PipelineRun PipelineRunSpecT UsesResolver)
          (dir kind : string).
Variables (jobsOf otherOf : @Trigger PipelineRun PipelineRunSpecT ->
                            list (@JobBase PipelineRunSpecT))
          (setJob : nat -> @JobBase PipelineRunSpecT ->
                    @Trigger PipelineRun PipelineRunSpecT ->
                    @Trigger PipelineRun PipelineRunSpecT)
          (body : nat -> @M PipelineRun (@Trigger PipelineRun PipelineRunSpecT) unit).

Hypothesis jobsOf_setJob :
  forall i r t, jobsOf (setJob i r t) = <[i := r]> (jobsOf t).
Hypothesis setJob_same :
  forall i r t,
    otherOf (setJob i r t) = otherOf t /\ Path (setJob i r t) = Path t
    /\ Names (setJob i r t) = Names t
    /\ Pipelines (setJob i r t) = Pipelines t.
Hypothesis addPipeline_same :
  forall name pr t,
    jobsOf (addPipeline name pr t) = jobsOf t
    /\ otherOf (addPipeline name pr t) = otherOf t.
Hypothesis body_step :
  forall i t tr r,
    jobsOf t !! i = Some r ->
    body i (t, tr)
    = if decide (SourcePath r <> "") then
        match LoadEffectivePipelineRun env tr (Resolver o) (resolverPath dir r) with
        | Ok pr =>
            (Ok tt, (setJob i (fixAgent env r)
                       (addPipeline (qualifiedName kind r) pr t),
                     tr ++ [resolverCall dir r]))
        | Fail e =>
            (Fail (ErrWrapf e ("failed to load " +:+ resolverPath dir r)),
             (t, tr ++ [resolverCall dir r]))
        | Panic => (Panic, (t, tr ++ [resolverCall dir r]))
        end
      else (Ok tt, (setJob i (fixAgent env r) t, tr)).

Lemma loop_spec (todo : list JobBase) :
  forall (done : list JobBase) t tr res t' tr',
    jobsOf t = done ++ todo ->
    forEach (seq (length done) (length todo)) body (t, tr)
    = (res, (t', tr')) ->
    exists (n : nat) (l : list JobBase),
      (n <= length todo)%nat
      /\ (res = Ok tt -> n = length todo)
      /\ (res <> Ok tt -> exists r, todo !! n = Some r /\ SourcePath r <> "")
      /\ jobsOf t'
         = done ++ (fixAgent env <$> take n todo) ++ drop n todo
      /\ otherOf t' = otherOf t
      /\ Path t' = Path t
      /\ Names t'
         = Names t
           ++ (qualifiedName kind <$> filter (fun r => SourcePath r <> "")
                               (take n todo))
      /\ (forall x,
            x ∉ (qualifiedName kind <$> filter (fun r => SourcePath r <> "")
                                 (take n todo)) ->
            Pipelines t' !! x = Pipelines t !! x)
      /\ tr' = tr ++ (resolverCall dir <$> l)
      /\ l `prefix_of` filter (fun r => SourcePath r <> "") todo
      /\ (res = Ok tt -> l = filter (fun r => SourcePath r <> "") todo).
Proof.
  induction todo as [| r rest IH]; intros done t tr res t' tr' Hjobs Hrun.
  - cbn in Hrun. injection Hrun as <- <- <-.
    rewrite app_nil_r in Hjobs.
    exists 0%nat, []. cbn. rewrite !app_nil_r.
    split_and!; try done; try lia.
  - cbn [length seq] in Hrun. rewrite forEach_cons in Hrun.
    assert (jobsOf t !! length done = Some r) as Hr
      by (rewrite Hjobs; by apply list_lookup_middle).
    rewrite (body_step _ _ _ _ Hr) in Hrun.
    assert (forall t1, jobsOf t1 = jobsOf t ->
              jobsOf (setJob (length done) (fixAgent env r) t1)
              = (done ++ [fixAgent env r]) ++ rest) as Hset.
    { intros t1 Ht1. rewrite jobsOf_setJob, Ht1, Hjobs.
      rewrite <- (Nat.add_0_r (length done)), insert_app_r.
      by rewrite <- app_assoc. }
    assert (S (length done) = length (done ++ [fixAgent env r])) as Hlen
      by (rewrite length_app; cbn; lia).
    destruct (decide (SourcePath r <> "")) as [Hsrc | Hsrc].
    + destruct (LoadEffectivePipelineRun env tr (Resolver o) (resolverPath dir r))
        as [pr | e |].
      * rewrite Hlen in Hrun.
        destruct (addPipeline_same (qualifiedName kind r) pr t) as [Hj Ho].
        destruct (setJob_same (length done) (fixAgent env r)
                    (addPipeline (qualifiedName kind r) pr t))
          as (Ho' & Hp' & Hn' & Hm').
        apply (IH _ _ _ _ _ _ (Hset _ Hj)) in Hrun
          as (n & l & Hn & Hok & Hko & Hjobs' & Hother & Hpath & Hnames
              & Hpipes & Htr & Hpre & Hall).
        exists (S n), (r :: l). cbn [take drop length fmap list_fmap].
        rewrite !filter_cons_True by done.
        split_and!.
        -- lia.
        -- intros H. by rewrite Hok.
        -- intros H. by apply Hko.
        -- rewrite Hjobs'. by rewrite <- app_assoc.
        -- by rewrite Hother, Ho', Ho.
        -- by rewrite Hpath, Hp'.
        -- rewrite Hnames, Hn'. cbn. by rewrite <- app_assoc.
        -- intros x Hx. rewrite fmap_cons in Hx.
           apply not_elem_of_cons in Hx as [Hx1 Hx2].
           rewrite (Hpipes x Hx2), Hm'. cbn.
           by rewrite lookup_insert_ne.
        -- rewrite Htr. rewrite <- app_assoc. done.
        -- by apply prefix_cons.
        -- intros H. by rewrite Hall.
      * injection Hrun as <- <- <-.
        exists 0%nat, [r].
        rewrite take_0, drop_0, filter_cons_True, filter_nil by done.
        rewrite fmap_nil, !app_nil_r.
        split_and!; try done; try (cbn; lia).
        -- intros _. by exists r.
        -- apply prefix_cons, prefix_nil.
      * injection Hrun as <- <- <-.
        exists 0%nat, [r].
        rewrite take_0, drop_0, filter_cons_True, filter_nil by done.
        rewrite fmap_nil, !app_nil_r.
        split_and!; try done; try (cbn; lia).
        -- intros _. by exists r.
        -- apply prefix_cons, prefix_nil.
    + rewrite Hlen in Hrun.
      destruct (setJob_same (length done) (fixAgent env r) t)
        as (Ho' & Hp' & Hn' & Hm').
      apply (IH _ _ _ _ _ _ (Hset _ eq_refl)) in Hrun
        as (n & l & Hn & Hok & Hko & Hjobs' & Hother & Hpath & Hnames
            & Hpipes & Htr & Hpre & Hall).
      exists (S n), l. cbn [take drop length fmap list_fmap].
      rewrite !filter_cons_False by done.
      split_and!.
      -- lia.
      -- intros H. by rewrite Hok.
      -- intros H. by apply Hko.
      -- rewrite Hjobs'. by rewrite <- app_assoc.
      -- by rewrite Hother, Ho'.
      -- by rewrite Hpath, Hp'.
      -- by rewrite Hnames, Hn'.
      -- intros x Hx. by rewrite (Hpipes x Hx), Hm'.
      -- done.
      -- done.
      -- done.
Qed.

End Loop.

Lemma setPresubmit_id (i : nat) r t :
  Presubmits (Spec (Config t)) !! i = Some r -> setPresubmit i r t = t.
Proof.
  destruct t as [p [[pres posts]] ns ps]. unfold setPresubmit. cbn.
  intros Hi. by rewrite list_insert_id.
Qed.

Lemma setPostsubmit_id (i : nat) r t :
  Postsubmits (Spec (Config t)) !! i = Some r -> setPostsubmit i r t = t.
Proof.
  destruct t as [p [[pres posts]] ns ps]. unfold setPostsubmit. cbn.
  intros Hi. by rewrite list_insert_id.
Qed.

Lemma loadPresubmit_step o (dir : string) (i : nat) t tr r :
  Presubmits (Spec (Config t)) !! i = Some r ->
  loadPresubmit env o dir i (t, tr)
  = if decide (SourcePath r <> "") then
      match LoadEffectivePipelineRun env tr (Resolver o)
              (Filepath.Join dir (SourcePath r)) with
      | Ok pr =>
          (Ok tt, (setPresubmit i (fixAgent env r)
                     (addPipeline ("presubmit/" +:+ Name r) pr t),
                   tr ++ [EvLoadEffectivePipelineRun
                            (Filepath.Join dir (SourcePath r))]))
      | Fail e =>
          (Fail (ErrWrapf e ("failed to load "
                             +:+ Filepath.Join dir (SourcePath r))),
           (t, tr ++ [EvLoadEffectivePipelineRun
                        (Filepath.Join dir (SourcePath r))]))
      | Panic =>
          (Panic, (t, tr ++ [EvLoadEffectivePipelineRun
                               (Filepath.Join dir (SourcePath r))]))
      end
    else (Ok tt, (setPresubmit i (fixAgent env r) t, tr)).
Proof.
  intros Hi. unfold loadPresubmit, fixAgent. mrun. rewrite Hi.
  destruct (decide (SourcePath r <> "")); mrun.
  - destruct (LoadEffectivePipelineRun _ _ _ _); mrun; [| done ..].
    destruct (decide (Agent r = "" /\ _)); mrun; [done |].
    by rewrite setPresubmit_id.
  - destruct (decide (Agent r = "" /\ _)); mrun; [done |].
    by rewrite setPresubmit_id.
Qed.

Lemma loadPostsubmit_step o (dir : string) (i : nat) t tr r :
  Postsubmits (Spec (Config t)) !! i = Some r ->
  loadPostsubmit env o dir i (t, tr)
  = if decide (SourcePath r <> "") then
      match LoadEffectivePipelineRun env tr (Resolver o)
              (Filepath.Join dir (SourcePath r)) with
      | Ok pr =>
          (Ok tt, (setPostsubmit i (fixAgent env r)
                     (addPipeline ("postsubmit/" +:+ Name r) pr t),
                   tr ++ [EvLoadEffectivePipelineRun
                            (Filepath.Join dir (SourcePath r))]))
      | Fail e =>
          (Fail (ErrWrapf e ("failed to load "
                             +:+ Filepath.Join dir (SourcePath r))),
           (t, tr ++ [EvLoadEffectivePipelineRun
                        (Filepath.Join dir (SourcePath r))]))
      | Panic =>
          (Panic, (t, tr ++ [EvLoadEffectivePipelineRun
                               (Filepath.Join dir (SourcePath r))]))
      end
    else (Ok tt, (setPostsubmit i (fixAgent env r) t, tr)).
Proof.
  intros Hi. unfold loadPostsubmit, fixAgent. mrun. rewrite Hi.
  destruct (decide (SourcePath r <> "")); mrun.
  - destruct (LoadEffectivePipelineRun _ _ _ _); mrun; [| done ..].
    destruct (decide (Agent r = "" /\ _)); mrun; [done |].
    by rewrite setPostsubmit_id.
  - destruct (decide (Agent r = "" /\ _)); mrun; [done |].
    by rewrite setPostsubmit_id.
Qed.

(** What [loadTriggerPipelines] leaves behind, whether it succeeds or
    not: [n] presubmits and [m] postsubmits were dealt with, and [l] are
    the job specs the resolver was called for. *)
Lemma loadTriggerPipelines_spec o (dir : string) t tr res t' tr' :
  loadTriggerPipelines env o dir (t, tr) = (res, (t', tr')) ->
  let pres := Presubmits (Spec (Config t)) in
  let posts := Postsubmits (Spec (Config t)) in
  exists (n m : nat) (l : list JobBase),
    (n <= length pres)%nat /\ (m <= length posts)%nat
    /\ (res = Ok tt -> n = length pres /\ m = length posts)
    /\ Presubmits (Spec (Config t'))
       = (fixAgent env <$> take n pres) ++ drop n pres
    /\ Postsubmits (Spec (Config t'))
       = (fixAgent env <$> take m posts) ++ drop m posts
    /\ Path t' = Path t
    /\ Names t'
       = Names t
         ++ ((fun r => "presubmit/" +:+ Name r)
               <$> filter (fun r => SourcePath r <> "") (take n pres))
         ++ ((fun r => "postsubmit/" +:+ Name r)
               <$> filter (fun r => SourcePath r <> "") (take m posts))
    /\ (forall x,
          x ∉ ((fun r => "presubmit/" +:+ Name r)
                 <$> filter (fun r => SourcePath r <> "") (take n pres)) ->
          x ∉ ((fun r => "postsubmit/" +:+ Name r)
                 <$> filter (fun r => SourcePath r <> "") (take m posts)) ->
          Pipelines t' !! x = Pipelines t !! x)
    /\ tr' = tr ++ ((fun r => EvLoadEffectivePipelineRun
                                (Filepath.Join dir (SourcePath r))) <$> l)
    /\ l `prefix_of` filter (fun r => SourcePath r <> "") (pres ++ posts)
    /\ (res = Ok tt ->
        l = filter (fun r => SourcePath r <> "") (pres ++ posts)).
Proof.
  intros Hrun pres posts. unfold loadTriggerPipelines in Hrun.
  unfold bind at 1 in Hrun. unfold get at 1 in Hrun. cbn [fst] in Hrun.
  unfold bind at 1 in Hrun. fold pres posts in Hrun.
  destruct (forEach (seq 0 (length pres)) _ _) as [r1 [t1 tr1]] eqn:H1.
  apply (loop_spec o dir "presubmit/"
           (fun t => Presubmits (Spec (Config t)))
           (fun t => Postsubmits (Spec (Config t)))
           setPresubmit (loadPresubmit env o dir)
           ltac:(done) ltac:(done) ltac:(done)
           (loadPresubmit_step o dir) pres [] t tr r1 t1 tr1 eq_refl) in H1
    as (n & l & Hn & Hok & Hko & Hjobs & Hother & Hpath & Hnames & Hpipes
        & Htr & Hpre & Hall).
  cbn beta in Hjobs, Hother. cbn [app] in Hjobs.
  assert (forall (k : list JobBase), l `prefix_of` k -> forall k',
            l `prefix_of` k ++ k') as Hpre_app.
  { intros k [k1 ->] k'. exists (k1 ++ k'). by rewrite app_assoc. }
  destruct r1 as [[] | e |].
  - unfold bind at 1 in Hrun.
    destruct (forEach (seq 0 (length posts)) _ _) as [r2 [t2 tr2]] eqn:H2.
    apply (loop_spec o dir "postsubmit/"
             (fun t => Postsubmits (Spec (Config t)))
             (fun t => Presubmits (Spec (Config t)))
             setPostsubmit (loadPostsubmit env o dir)
             ltac:(done) ltac:(done) ltac:(done)
             (loadPostsubmit_step o dir) posts [] t1 tr1 r2 t2 tr2 Hother)
      in H2
      as (m & l2 & Hm & Hok2 & Hko2 & Hjobs2 & Hother2 & Hpath2 & Hnames2
          & Hpipes2 & Htr2 & Hpre2 & Hall2).
    cbn beta in Hjobs2, Hother2. cbn [app] in Hjobs2.
    specialize (Hok eq_refl). specialize (Hall eq_refl). subst n l.
    assert (res = r2 /\ t' = t2 /\ tr' = tr2) as (-> & -> & ->).
    { destruct r2 as [[] | |]; by injection Hrun as <- <- <-. }
    exists (length pres), m, (filter (fun r => SourcePath r <> "") pres ++ l2).
    split_and!; try done.
    + intros H. split; [done | by apply Hok2].
    + by rewrite Hother2.
    + by rewrite Hpath2.
    + rewrite Hnames2, Hnames. by rewrite <- app_assoc.
    + intros x Hx1 Hx2. rewrite (Hpipes2 x Hx2). by apply Hpipes.
    + rewrite Htr2, Htr, fmap_app. by rewrite <- app_assoc.
    + rewrite filter_app. by apply prefix_app.
    + intros H. rewrite filter_app. by rewrite (Hall2 H).
  - injection Hrun as <- <- <-.
    exists n, 0%nat, l. rewrite take_0, drop_0, filter_nil, fmap_nil.
    rewrite app_nil_r. cbn [app].
    split_and!; try done; try lia.
    + intros x Hx _. by apply Hpipes.
    + rewrite filter_app. by apply Hpre_app.
  - injection Hrun as <- <- <-.
    exists n, 0%nat, l. rewrite take_0, drop_0, filter_nil, fmap_nil.
    rewrite app_nil_r. cbn [app].
    split_and!; try done; try lia.
    + intros x Hx _. by apply Hpipes.
    + rewrite filter_app. by apply Hpre_app.
Qed.

Lemma NoDup_fmap_eq {A B} (f : A -> B) (l : list A) (x y : A) :
  NoDup (f <$> l) -> x ∈ l -> y ∈ l -> f x = f y -> x = y.
Proof.
  intros Hnd [i Hi]%list_elem_of_lookup [j Hj]%list_elem_of_lookup Hf.
  assert (i = j) as ->; [| congruence].
  apply (NoDup_lookup _ i j (f x) Hnd).
  - by rewrite list_lookup_fmap, Hi.
  - by rewrite list_lookup_fmap, Hj, Hf.
Qed.

Lemma kinds_differ (a b : string) : "presubmit/" +:+ a <> "postsubmit/" +:+ b.
Proof. cbv beta iota delta [String.append]. discriminate. Qed.

(** A job spec without source path is not among the named ones, when the
    names of the job specs are unique. *)
Lemma unnamed_without_source (kind : string) (jobs : list JobBase) (n : nat) r :
  NoDup (Name <$> jobs) -> r ∈ jobs -> SourcePath r = "" ->
  (kind +:+ Name r)
  ∉ ((fun r => kind +:+ Name r)
       <$> filter (fun r => SourcePath r <> "") (take n jobs)).
Proof.
  intros Hnd Hr Hsrc [r' [Heq [Hsrc' Hr']%list_elem_of_filter]]%list_elem_of_fmap.
  apply (inj (String.app kind)) in Heq.
  apply subseteq_take in Hr'.
  apply Hsrc'. by rewrite <- (NoDup_fmap_eq Name jobs r r' Hnd Hr Hr' Heq).
Qed.

Lemma other_kind_unnamed (kind kind' : string) (jobs : list JobBase) r :
  (forall a b, kind +:+ a <> kind' +:+ b) ->
  (kind +:+ Name r) ∉ ((fun r => kind' +:+ Name r) <$> jobs).
Proof.
  intros Hk [r' [Heq _]]%list_elem_of_fmap. by apply Hk in Heq.
Qed.

(** C1. A presubmit or postsubmit job spec whose source path is empty
    causes no call of the resolver: the body of either loop leaves the
    trace, the job names and the pipelines of the trigger as they are, and
    all the calls a load makes are for job specs with a source path, in
    the order of the file.  Every job name and every key of the pipelines
    of the loaded trigger is the qualified name of a job spec with a source
    path.  So the qualified name of a job spec without one is not in the
    job names, nor a key of the pipelines; this is where the data model is
    used, in which the name of a job spec is unique within its list
    (another job spec of the same list and name, with a source path, would
    be listed under that very name). *)
Theorem empty_source_path_skipped o (dir path : string)
    (c : @TriggerConfig PipelineRunSpecT) tr :
  let out := loadTriggerPipelines env o dir (newTrigger path c, tr) in
  let t' := fst (snd out) in
  let tr' := snd (snd out) in
  (forall (i : nat) r t tr0,
      SourcePath r = "" ->
      (Presubmits (Spec (Config t)) !! i = Some r ->
       let out1 := loadPresubmit env o dir i (t, tr0) in
       fst out1 = Ok tt /\ snd (snd out1) = tr0
       /\ Names (fst (snd out1)) = Names t
       /\ Pipelines (fst (snd out1)) = Pipelines t)
      /\ (Postsubmits (Spec (Config t)) !! i = Some r ->
          let out1 := loadPostsubmit env o dir i (t, tr0) in
          fst out1 = Ok tt /\ snd (snd out1) = tr0
          /\ Names (fst (snd out1)) = Names t
          /\ Pipelines (fst (snd out1)) = Pipelines t))
  /\ (exists l : list JobBase,
        l `prefix_of` filter (fun r => SourcePath r <> "")
                        (Presubmits (Spec c) ++ Postsubmits (Spec c))
        /\ tr' = tr ++ ((fun r => EvLoadEffectivePipelineRun
                                    (Filepath.Join dir (SourcePath r)))
                          <$> l))
  /\ (forall x,
        (x ∈ Names t' \/ is_Some (Pipelines t' !! x)) ->
        exists r,
          SourcePath r <> ""
          /\ (r ∈ Presubmits (Spec c) /\ x = "presubmit/" +:+ Name r
              \/ r ∈ Postsubmits (Spec c) /\ x = "postsubmit/" +:+ Name r))
  /\ (forall r,
        SourcePath r = "" ->
        (NoDup (Name <$> Presubmits (Spec c)) ->
         r ∈ Presubmits (Spec c) ->
         (("presubmit/" +:+ Name r) ∉ Names t')
         /\ Pipelines t' !! ("presubmit/" +:+ Name r) = None)
        /\ (NoDup (Name <$> Postsubmits (Spec c)) ->
            r ∈ Postsubmits (Spec c) ->
            (("postsubmit/" +:+ Name r) ∉ Names t')
            /\ Pipelines t' !! ("postsubmit/" +:+ Name r) = None)).
Proof.
  intros out t' tr'.
  destruct out as [res [t1 tr1]] eqn:Hout. subst t' tr'. cbn [fst snd].
  apply loadTriggerPipelines_spec in Hout
    as (n & m & l & _ & _ & _ & _ & _ & _ & Hnames & Hpipes & Htr & Hl & _).
  cbn [newTrigger Names Pipelines Config Spec app] in Hnames, Hpipes, Hl.
  split_and!.
  - intros i r t tr0 Hsrc. split; intros Hi.
    + rewrite (loadPresubmit_step _ _ _ _ _ _ Hi).
      by rewrite decide_False by (by intros []).
    + rewrite (loadPostsubmit_step _ _ _ _ _ _ Hi).
      by rewrite decide_False by (by intros []).
  - by exists l.
  - intros x Hx.
    assert (x ∈ Names t1) as Hin.
    { destruct Hx as [Hx | Hx]; [done |].
      destruct (decide (x ∈ Names t1)) as [Hin | Hout]; [done |].
      rewrite Hnames in Hout. apply not_elem_of_app in Hout as [H1 H2].
      rewrite (Hpipes x H1 H2), lookup_empty in Hx. by destruct Hx. }
    rewrite Hnames in Hin.
    apply elem_of_app in Hin
      as [(r & -> & [Hsrc Hr%subseteq_take]%list_elem_of_filter)%list_elem_of_fmap
         | (r & -> & [Hsrc Hr%subseteq_take]%list_elem_of_filter)%list_elem_of_fmap];
      exists r; split; auto.
  - intros r Hsrc.
    assert (forall a b, "postsubmit/" +:+ a <> "presubmit/" +:+ b) as Hk
      by (intros a b H; by apply (kinds_differ b a)).
    split; intros Hnd Hr.
    + assert (("presubmit/" +:+ Name r)
              ∉ ((fun r => "presubmit/" +:+ Name r)
                   <$> filter (fun r => SourcePath r <> "")
                         (take n (Presubmits (Spec c))))) as H1
        by by apply unnamed_without_source.
      pose proof (other_kind_unnamed "presubmit/" "postsubmit/"
                    (filter (fun r => SourcePath r <> "")
                       (take m (Postsubmits (Spec c)))) r kinds_differ)
        as H2.
      split.
      * rewrite Hnames. by apply not_elem_of_app.
      * by rewrite (Hpipes _ H1 H2).
    + assert (("postsubmit/" +:+ Name r)
              ∉ ((fun r => "postsubmit/" +:+ Name r)
                   <$> filter (fun r => SourcePath r <> "")
                         (take m (Postsubmits (Spec c))))) as H2
        by by apply unnamed_without_source.
      pose proof (other_kind_unnamed "postsubmit/" "presubmit/"
                    (filter (fun r => SourcePath r <> "")
                       (take n (Presubmits (Spec c)))) r Hk)
        as H1.
      split.
      * rewrite Hnames. by apply not_elem_of_app.
      * by rewrite (Hpipes _ H1 H2).
Qed.

(** C2. The job names of a loaded trigger: the presubmits with a source
    path, as [presubmit/<name>], in the order of the file, and after them
    the postsubmits with a source path, as [postsubmit/<name>], in the
    order of the file.  A load that fails leaves the names of the [n]
    presubmits and [m] postsubmits it had dealt with, in that same
    order. *)
Theorem job_names_ordered o (dir path : string)
    (c : @TriggerConfig PipelineRunSpecT) tr :
  let out := loadTriggerPipelines env o dir (newTrigger path c, tr) in
  let t' := fst (snd out) in
  (exists n m : nat,
      Names t'
      = ((fun r => "presubmit/" +:+ Name r)
           <$> filter (fun r => SourcePath r <> "")
                 (take n (Presubmits (Spec c))))
        ++ ((fun r => "postsubmit/" +:+ Name r)
              <$> filter (fun r => SourcePath r <> "")
                    (take m (Postsubmits (Spec c)))))
  /\ (fst out = Ok tt ->
      Names t'
      = ((fun r => "presubmit/" +:+ Name r)
           <$> filter (fun r => SourcePath r <> "") (Presubmits (Spec c)))
        ++ ((fun r => "postsubmit/" +:+ Name r)
              <$> filter (fun r => SourcePath r <> "")
                    (Postsubmits (Spec c)))).
Proof.
  intros out t'.
  destruct out as [res [t1 tr1]] eqn:Hout. subst t'. cbn [fst snd].
  apply loadTriggerPipelines_spec in Hout
    as (n & m & l & _ & _ & Hok & _ & _ & _ & Hnames & _).
  cbn [newTrigger Names Config Spec app] in Hnames, Hok.
  split.
  - by exists n, m.
  - intros Hres. destruct (Hok Hres) as [-> ->].
    by rewrite !firstn_all in Hnames.
Qed.

Lemma lookup_fmap_take_drop {A} (f : A -> A) (l : list A) (n i : nat) (x : A) :
  l !! i = Some x ->
  ((f <$> take n l) ++ drop n l) !! i
  = Some (if decide (i < n)%nat then f x else x).
Proof.
  intros Hi. pose proof (lookup_lt_Some _ _ _ Hi) as Hlt.
  destruct (decide (i < n)%nat) as [Hin | Hin].
  - rewrite lookup_app_l by (rewrite length_fmap, length_take; lia).
    by rewrite list_lookup_fmap, lookup_take_lt, Hi.
  - rewrite lookup_app_r by (rewrite length_fmap, length_take; lia).
    rewrite length_fmap, length_take, lookup_drop.
    rewrite <- Hi. f_equal. lia.
Qed.

Lemma fixAgent_spec r :
  Name (fixAgent env r) = Name r
  /\ SourcePath (fixAgent env r) = SourcePath r
  /\ PipelineRunSpec (fixAgent env r) = PipelineRunSpec r
  /\ (Agent r = "" -> PipelineRunSpec r <> None ->
      Agent (fixAgent env r) = TektonPipelineAgent env)
  /\ (~ (Agent r = "" /\ PipelineRunSpec r <> None) -> fixAgent env r = r).
Proof.
  unfold fixAgent.
  destruct (decide (Agent r = "" /\ PipelineRunSpec r <> None)) as [H | H];
    cbn; split_and!; try done.
  intros H1 H2. by destruct H.
Qed.

Lemma agentFixed_lookup (jobs : list JobBase) (n i : nat) r (ok : Prop) :
  (ok -> n = length jobs) ->
  jobs !! i = Some r ->
  exists r',
    ((fixAgent env <$> take n jobs) ++ drop n jobs) !! i = Some r'
    /\ agentFixed env ok r r'.
Proof.
  intros Hok Hi. eexists. split; [by apply lookup_fmap_take_drop |].
  destruct (fixAgent_spec r) as (H1 & H2 & H3 & H4 & H5).
  pose proof (lookup_lt_Some _ _ _ Hi) as Hlt.
  unfold agentFixed.
  destruct (decide (i < n)%nat) as [Hin | Hin]; split_and!; try done.
  - intros H. by rewrite H5.
  - intros Hk. specialize (Hok Hk). lia.
Qed.

(** C9. Loading a trigger sets the agent of every presubmit and
    postsubmit job spec that has no agent but an inline pipeline spec to
    [job.TektonPipelineAgent], with or without a source path; the agent of
    any other job spec, and every other field, stays as it was.  (A load
    that fails has done so for the job specs before the failing one.) *)
Theorem agent_defaulted o (dir path : string)
    (c : @TriggerConfig PipelineRunSpecT) tr :
  let out := loadTriggerPipelines env o dir (newTrigger path c, tr) in
  let c' := Config (fst (snd out)) in
  length (Presubmits (Spec c')) = length (Presubmits (Spec c))
  /\ length (Postsubmits (Spec c')) = length (Postsubmits (Spec c))
  /\ forall (i : nat) r,
      (Presubmits (Spec c) !! i = Some r ->
       exists r', Presubmits (Spec c') !! i = Some r'
                  /\ agentFixed env (fst out = Ok tt) r r')
      /\ (Postsubmits (Spec c) !! i = Some r ->
          exists r', Postsubmits (Spec c') !! i = Some r'
                     /\ agentFixed env (fst out = Ok tt) r r').
Proof.
  intros out c'.
  destruct out as [res [t1 tr1]] eqn:Hout. subst c'. cbn [fst snd].
  apply loadTriggerPipelines_spec in Hout
    as (n & m & l & Hn & Hm & Hok & Hpres & Hposts & _).
  cbn [newTrigger Config Spec] in Hn, Hm, Hok, Hpres, Hposts.
  rewrite Hpres, Hposts. split_and!.
  - rewrite length_app, length_fmap, length_take, length_drop. lia.
  - rewrite length_app, length_fmap, length_take, length_drop. lia.
  - intros i r. split; intros Hi.
    + apply agentFixed_lookup; [| done]. intros H. by apply Hok.
    + apply agentFixed_lookup; [| done]. intros H. by apply Hok.
Qed.

(** ** Scanning a [.lighthouse] directory *)

Lemma processEntry_not_candidate (dir : string) (f : FileInfo) s :
  IsDir f = false \/ Strings.HasPrefix (FileName f) "." = true ->
  processEntry env dir f s = (Ok tt, s).
Proof.
  intros H. unfold processEntry.
  by destruct H as [-> | ->]; rewrite ?orb_true_r.
Qed.

Lemma processEntry_no_file (dir : string) (f : FileInfo) o tr :
  IsDir f = true -> Strings.HasPrefix (FileName f) "." = false ->
  FileExists env tr
    (Filepath.Join (Filepath.Join dir (FileName f)) "triggers.yaml")
  = Ok false ->
  processEntry env dir f (o, tr)
  = (Ok tt,
     (o, tr ++ [EvFileExists
                  (Filepath.Join (Filepath.Join dir (FileName f))
                     "triggers.yaml")])).
Proof.
  intros Hdir Hdot Hexists. unfold processEntry.
  rewrite Hdir, Hdot. cbn [negb orb]. mrun. by rewrite Hexists.
Qed.

(** C4. An entry of a scanned [.lighthouse] directory which is no
    directory, or whose name starts with a dot, is passed over without
    any effect; a subdirectory in which [triggers.yaml] does not exist is
    passed over after that one check: no trigger is recorded and no error
    is returned.  A directory with such entries only is scanned with
    success, leaves the triggers as they were, and nothing is loaded or
    resolved. *)
Theorem missing_triggers_file_skipped (dir : string) o tr :
  let triggersFile (f : FileInfo) :=
    Filepath.Join (Filepath.Join dir (FileName f)) "triggers.yaml" in
  (forall f,
      IsDir f = false \/ Strings.HasPrefix (FileName f) "." = true ->
      processEntry env dir f (o, tr) = (Ok tt, (o, tr)))
  /\ (forall f,
        IsDir f = true -> Strings.HasPrefix (FileName f) "." = false ->
        FileExists env tr (triggersFile f) = Ok false ->
        processEntry env dir f (o, tr)
        = (Ok tt, (o, tr ++ [EvFileExists (triggersFile f)])))
  /\ (forall fs,
        ReadDir env tr dir = Ok fs ->
        (forall f, f ∈ fs ->
                   IsDir f = false
                   \/ Strings.HasPrefix (FileName f) "." = true
                   \/ forall tr1, FileExists env tr1 (triggersFile f)
                                  = Ok false) ->
        ProcessDir env dir (o, tr)
        = (Ok tt,
           (o, tr ++ EvReadDir dir
                    :: (EvFileExists ∘ triggersFile
                          <$> filter (fun f => IsDir f = true
                                        /\ Strings.HasPrefix (FileName f) "."
                                           = false) fs)))).
Proof.
  intros triggersFile. split_and!.
  - intros f Hf. by apply processEntry_not_candidate.
  - intros f Hdir Hdot Hexists. by apply processEntry_no_file.
  - intros fs Hfs Hskip. unfold ProcessDir. mrun. rewrite Hfs.
    assert (forall tr0,
               forEach fs (processEntry env dir) (o, tr0)
               = (Ok tt,
                  (o, tr0 ++ (EvFileExists ∘ triggersFile
                                <$> filter (fun f => IsDir f = true
                                              /\ Strings.HasPrefix
                                                   (FileName f) "." = false)
                                      fs)))) as Hloop.
    { clear Hfs. induction fs as [| f fs IH]; intros tr0.
      - cbn. by rewrite app_nil_r.
      - rewrite forEach_cons.
        assert (forall f0, f0 ∈ fs ->
                  IsDir f0 = false
                  \/ Strings.HasPrefix (FileName f0) "." = true
                  \/ forall tr1, FileExists env tr1 (triggersFile f0)
                                 = Ok false) as Hskip'
          by (intros f0 Hf0; apply Hskip; by right).
        destruct (Hskip f ltac:(left)) as [Hf | [Hf | Hf]].
        + rewrite processEntry_not_candidate by auto.
          rewrite filter_cons_False by (intros [H _]; congruence).
          by apply IH.
        + rewrite processEntry_not_candidate by auto.
          rewrite filter_cons_False by (intros [_ H]; congruence).
          by apply IH.
        + destruct (IsDir f) eqn:Hdir;
            [destruct (Strings.HasPrefix (FileName f) ".") eqn:Hdot |].
          * rewrite processEntry_not_candidate by auto.
            rewrite filter_cons_False by (intros [_ H]; congruence).
            by apply IH.
          * rewrite processEntry_no_file by auto.
            rewrite filter_cons_True by done.
            rewrite IH by done. rewrite fmap_cons.
            by rewrite <- app_assoc.
          * rewrite processEntry_not_candidate by auto.
            rewrite filter_cons_False by (intros [H _]; congruence).
            by apply IH. }
    rewrite Hloop. mrun. by rewrite <- app_assoc.
Qed.

(** ** The temporary file *)

Lemma app_cons (a : ascii) (s b : string) :
  String a s +:+ b = String a (s +:+ b).
Proof. reflexivity. Qed.

Lemma containsByte_app (c : ascii) (a b : string) :
  Os.containsByte c (a +:+ b) = Os.containsByte c a || Os.containsByte c b.
Proof.
  induction a as [| x a IH]; [done |].
  rewrite app_cons. cbn. by destruct (decide (x = c)).
Qed.

Lemma Split_file_no_separator (path : string) :
  Os.containsByte "/" (snd (Filepath.Split path)) = false.
Proof.
  induction path as [| c rest IH]; [done |].
  cbn. destruct (Filepath.Split rest) as [d f]. cbn in IH.
  destruct (decide (d = "")); [| done].
  destruct (decide (c = "/"%char)); [done |].
  cbn. by rewrite decide_False.
Qed.

Lemma prefix_slash (c : ascii) (s : string) :
  String.prefix "/" (String c s) = bool_decide (c = "/"%char).
Proof.
  cbn [String.prefix].
  destruct (ascii_dec "/" c) as [<- | Hc].
  - by destruct s.
  - by rewrite bool_decide_eq_false_2.
Qed.

Lemma genReplace_cons (old new : string) (c : ascii) (s : string) :
  Strings.genReplace old new 0 (String c s)
  = if String.prefix old (String c s)
    then new +:+ Strings.genReplace old new (String.length old - 1) s
    else String c (Strings.genReplace old new 0 s).
Proof. reflexivity. Qed.

Lemma ReplaceAll_no_separator (name : string) :
  Os.containsByte "/" (Strings.ReplaceAll name Filepath.PathSeparator "-")
  = false.
Proof.
  unfold Strings.ReplaceAll, Filepath.PathSeparator.
  induction name as [| c rest IH]; [done |].
  rewrite genReplace_cons, prefix_slash.
  destruct (decide (c = "/"%char)) as [-> | Hc].
  - rewrite bool_decide_eq_true_2 by done. exact IH.
  - rewrite bool_decide_eq_false_2 by done.
    cbn. by rewrite decide_False.
Qed.

Lemma cutLast_app (c : ascii) (a b p q : string) :
  Os.cutLast c b = Some (p, q) -> Os.cutLast c (a +:+ b) = Some (a +:+ p, q).
Proof.
  intros Hb. induction a as [| x a IH]; [done |].
  rewrite app_cons. cbn. by rewrite IH.
Qed.

Lemma prefixAndSuffix_pattern (base name : string) :
  Os.containsByte "/" base = false ->
  let replaced := Strings.ReplaceAll name Filepath.PathSeparator "-" in
  Os.prefixAndSuffix (base +:+ "-" +:+ replaced +:+ "-*.yaml")
  = Ok (base +:+ "-" +:+ replaced +:+ "-", ".yaml").
Proof.
  intros Hbase replaced. unfold Os.prefixAndSuffix.
  rewrite !containsByte_app, Hbase.
  unfold replaced at 1. rewrite ReplaceAll_no_separator. cbn [orb].
  change (Os.containsByte "/" "-" || Os.containsByte "/" "-*.yaml") with false.
  cbv iota.
  by rewrite (cutLast_app "*" base _ ("-" +:+ replaced +:+ "-") ".yaml")
    by (apply cutLast_app, cutLast_app; reflexivity).
Qed.

Lemma keeps_bind {X A B} (m : @M PipelineRun X A) (k : A -> M X B) :
  keeps m -> (forall a, keeps (k a)) -> keeps (bind m k).
Proof.
  intros Hm Hk s. unfold bind. specialize (Hm s).
  destruct (m s) as [[a | e |] s1]; cbn in Hm |- *; [| done ..].
  by rewrite Hk.
Qed.

Lemma keeps_wrapf {X A} (m : @M PipelineRun X A) (msg : string) :
  keeps m -> keeps (wrapf m msg).
Proof.
  intros Hm s. unfold wrapf. specialize (Hm s).
  by destruct (m s) as [[a | e |] s1].
Qed.

Lemma keeps_ask {X A} (f : @Trace PipelineRun -> Outcome A) ev :
  keeps (X := X) (ask f ev).
Proof. by intros s. Qed.

Lemma keeps_emit {X} (ev : @Event PipelineRun) : keeps (X := X) (emit ev).
Proof. by intros s. Qed.

Lemma keeps_ret {X A} (a : A) : keeps (X := X) (@ret PipelineRun X A a).
Proof. by intros s. Qed.

Lemma keeps_get {X} : keeps (@get PipelineRun X).
Proof. by intros s. Qed.

Lemma keeps_fail {X A} (e : Error) : keeps (@fail PipelineRun X A e).
Proof. by intros s. Qed.

Lemma keeps_panic {X A} : keeps (@panic PipelineRun X A).
Proof. by intros s. Qed.

Create HintDb keeps.

(** Proves that a computation made of the above, and of computations
    known to keep their receiver, keeps its receiver. *)
Ltac keeps :=
  repeat first
    [ solve [auto with keeps nocore]
    | progress cbv zeta
    | apply keeps_bind; [| intros ?]
    | apply keeps_wrapf
    | apply keeps_ask
    | apply keeps_emit
    | apply keeps_ret
    | apply keeps_get
    | apply keeps_fail
    | apply keeps_panic
    | case_match ].

Lemma openInEditor_keeps (path editor : string) :
  keeps (openInEditor env path editor).
Proof.
  unfold openInEditor, targetLine, findFirstStepLine, runCommand, Infof.
  keeps.
Qed.

Hint Resolve openInEditor_keeps : keeps.

Lemma writePipeline_keeps (trigger : Trigger) (name : string)
    (pipeline : PipelineRun) :
  keeps (writePipeline env trigger name pipeline).
Proof.
  unfold writePipeline, Infof, Print. keeps.
Qed.

Lemma Abs_keeps {X} (path : string) : keeps (X := X) (Abs env path).
Proof. unfold Abs. keeps. Qed.

(** C7. With an editor and no output file, the pipeline is saved in a
    temporary file.  Its name, in the directory for temporary files, is
    the final segment of the absolute root directory ([jx-pipeline] when
    that segment is empty or one byte long, or the absolute path cannot
    be had), a hyphen, the qualified job name with every path separator
    replaced by a hyphen, a hyphen, the random part that makes the name
    unique, and [.yaml]. *)
Theorem temp_file_name o tr (trigger : Trigger) (name : string)
    (pipeline : PipelineRun) :
  Editor o <> "" -> OutFile o = "" ->
  let abs := Abs env (Dir o) (o, tr) in
  fst abs <> Panic ->
  let segment :=
    match fst abs with
    | Ok a => snd (Filepath.Split a)
    | _ => ""
    end in
  let base :=
    if decide (segment = "" \/ String.length segment = 1%nat)
    then "jx-pipeline" else segment in
  let prefix := base +:+ "-" +:+ Strings.ReplaceAll name "/" "-" +:+ "-" in
  forall random,
    CreateTemp env (snd (snd abs)) (TempDir env) prefix ".yaml" = Ok random ->
    OutFile (fst (snd (displayPipeline env trigger name pipeline (o, tr))))
    = Os.joinPath (TempDir env) (prefix +:+ random +:+ ".yaml").
Proof.
  intros Heditor Hout abs Habs segment base prefix random Hcreate.
  pose proof (Abs_keeps (X := Options) (Dir o) (o, tr)) as Hkeep.
  unfold displayPipeline, createOutFile.
  unfold bind at 1. unfold bind at 1. unfold get at 1. cbn [fst snd].
  rewrite decide_True by done.
  unfold bind at 1. unfold bind at 1. unfold try.
  subst prefix base segment abs.
  destruct (Abs env (Dir o) (o, tr)) as [[a | e |] [o1 tr1]];
    cbn [fst snd] in *; subst o1; [| | done].
  - pose proof (Split_file_no_separator a) as Hsplit.
    set (base := if decide (_ \/ _) then _ else _) in *.
    assert (Os.containsByte "/" base = false) as Hbase
      by (unfold base; by case_decide).
    unfold TempFile. rewrite decide_True by done.
    rewrite (prefixAndSuffix_pattern base name Hbase).
    mrun. unfold Filepath.PathSeparator. rewrite Hcreate. mrun.
    by rewrite writePipeline_keeps.
  - rewrite decide_True in Hcreate |- * by (by left).
    unfold TempFile. rewrite decide_True by done.
    rewrite (prefixAndSuffix_pattern "jx-pipeline" name eq_refl).
    mrun. unfold Filepath.PathSeparator. rewrite Hcreate. mrun.
    by rewrite writePipeline_keeps.
Qed.

(** ** Finding the [.lighthouse] directories *)

Lemma stable_keeps {X Y A} (f : X -> Y) (m : @M PipelineRun X A) :
  keeps m -> stable f m.
Proof. intros Hm s. by rewrite Hm. Qed.

Lemma stable_bind {X Y A B} (f : X -> Y) (m : @M PipelineRun X A)
    (k : A -> M X B) :
  stable f m -> (forall a, stable f (k a)) -> stable f (bind m k).
Proof.
  intros Hm Hk s. unfold bind. specialize (Hm s).
  destruct (m s) as [[a | e |] s1]; cbn in Hm |- *; [| done ..].
  by rewrite Hk.
Qed.

Lemma stable_wrapf {X Y A} (f : X -> Y) (m : @M PipelineRun X A)
    (msg : string) :
  stable f m -> stable f (wrapf m msg).
Proof.
  intros Hm s. unfold wrapf. specialize (Hm s).
  by destruct (m s) as [[a | e |] s1].
Qed.

Lemma stable_modify {X Y} (f : X -> Y) (g : X -> X) :
  (forall x, f (g x) = f x) -> stable f (@modify PipelineRun X g).
Proof. intros Hg s. apply Hg. Qed.

Lemma keeps_observe {X A} (f : @Trace PipelineRun -> A) ev :
  keeps (X := X) (observe f ev).
Proof. by intros s. Qed.

Ltac stable :=
  repeat first
    [ apply stable_bind; [| intros ?]
    | apply stable_wrapf
    | apply stable_modify; intros ?; reflexivity
    | apply stable_keeps;
      first [apply keeps_ask | apply keeps_observe | apply keeps_ret
            | apply keeps_get]
    | case_match ].

(** [Validate] touches neither the root directory, nor the flags, nor
    the triggers. *)
Lemma Validate_stable :
  stable (fun o => (Dir o, Recursive o, Triggers o))
    (wrapf (Validate env) "failed to validate options").
Proof. unfold Validate. stable. Qed.

Lemma FsNode_induction (P : FsNode -> Prop) :
  (forall name, P (FsFile name)) ->
  (forall name entries, Forall P entries -> P (FsDir name entries)) ->
  (forall name e, P (FsUnreadable name e)) ->
  (forall name e, P (FsBroken name e)) ->
  forall n, P n.
Proof.
  intros Hfile Hdir Hunreadable Hbroken.
  fix IH 1. intros [name | name entries | name e | name e].
  - apply Hfile.
  - apply Hdir.
    induction entries as [| c rest IHrest]; constructor;
      [apply IH | exact IHrest].
  - apply Hunreadable.
  - apply Hbroken.
Qed.

(** A walk of a tree without [.lighthouse] directory never gets to
    [ProcessDir]: it ends well, or with an error of the tree. *)
Lemma walk_no_lighthouse (n : FsNode) :
  forall (path : string) (s : Options * @Trace PipelineRun),
    hasLighthouse n = false ->
    walk (lighthouseWalkFn env) path n s = (Ok tt, s)
    \/ exists e, e ∈ treeErrors n
                 /\ walk (lighthouseWalkFn env) path n s = (Fail e, s).
Proof.
  induction n as [name | name entries IH | name e | name e]
    using FsNode_induction; intros path s Hno.
  - by left.
  - cbn [hasLighthouse] in Hno. apply orb_false_iff in Hno as [Hname Hno].
    assert (forEach entries (fun c =>
              walk (lighthouseWalkFn env) (Filepath.Join path (nodeName c)) c)
              s = (Ok tt, s)
            \/ exists e, e ∈ flat_map treeErrors entries
                         /\ forEach entries (fun c =>
                              walk (lighthouseWalkFn env)
                                (Filepath.Join path (nodeName c)) c) s
                            = (Fail e, s)) as Hloop.
    { induction entries as [| c rest IHrest]; [by left |].
      cbn [existsb] in Hno. apply orb_false_iff in Hno as [Hc Hrest].
      apply Forall_cons in IH as [IHc IH].
      rewrite forEach_cons. cbn [flat_map].
      destruct (IHc (Filepath.Join path (nodeName c)) s Hc)
        as [-> | (e & He & ->)].
      - destruct (IHrest IH Hrest) as [-> | (e & He & ->)]; [by left |].
        right. exists e. split; [| done]. apply elem_of_app. by right.
      - right. exists e. split; [| done]. apply elem_of_app. by left. }
    assert (walk (lighthouseWalkFn env) path (FsDir name entries) s
            = forEach entries (fun c =>
                walk (lighthouseWalkFn env)
                  (Filepath.Join path (nodeName c)) c) s) as ->.
    { cbn [walk]. unfold bind at 1. unfold lighthouseWalkFn at 1.
      cbn [IsDir FileName negb orb]. by rewrite Hname. }
    exact Hloop.
  - right. exists e. split; [apply list_elem_of_here | done].
  - right. exists e. split; [apply list_elem_of_here | done].
Qed.

(** C10. After the options are validated: in recursive mode, when the
    tree below the root directory has no directory named [.lighthouse],
    nothing is scanned and no trigger is added, and the run goes on to
    the selection; the only way not to get there is an error of the walk
    itself, which a tree without unreadable entries does not have.  In
    non-recursive mode, when [<root>/.lighthouse] cannot be read the run
    ends with that error, wrapped with the name of the directory. *)
Theorem lighthouse_absent o tr o1 tr1 :
  wrapf (Validate env) "failed to validate options" (o, tr)
  = (Ok tt, (o1, tr1)) ->
  (Recursive o = true ->
   let tree := FileTree env tr1 (Dir o) in
   let s2 := (o1, tr1 ++ [EvWalk (Dir o)]) in
   hasLighthouse tree = false ->
   Triggers o1 = Triggers o
   /\ (Run env (o, tr) = processTriggers env s2
       \/ exists e, e ∈ treeErrors tree /\ Run env (o, tr) = (Fail e, s2))
   /\ (treeErrors tree = [] -> Run env (o, tr) = processTriggers env s2))
  /\ (Recursive o = false ->
      let dir := Filepath.Join (Dir o) ".lighthouse" in
      forall e,
        ReadDir env tr1 dir = Fail e ->
        Run env (o, tr)
        = (Fail (ErrWrapf e ("failed to read dir " +:+ dir)),
           (o1, tr1 ++ [EvReadDir dir]))).
Proof.
  intros Hvalid.
  pose proof (Validate_stable (o, tr)) as Hstable.
  rewrite Hvalid in Hstable. cbn [fst snd] in Hstable.
  injection Hstable as Hdir Hrec Htriggers.
  assert (Run env (o, tr)
          = ((if Recursive o then Walk env (Dir o) (lighthouseWalkFn env)
              else ProcessDir env (Filepath.Join (Dir o) ".lighthouse")) ;;
             processTriggers env) (o1, tr1)) as Hrun.
  { unfold Run. unfold bind at 1. rewrite Hvalid.
    unfold bind at 1. unfold get at 1. cbn [fst snd].
    by rewrite Hdir, Hrec. }
  split.
  - intros Hrecursive tree s2 Hno.
    rewrite Hrun, Hrecursive. unfold bind at 1 2 3. unfold Walk.
    unfold bind at 1 2 3, observe. cbn [fst snd]. fold tree s2.
    destruct (walk_no_lighthouse tree (Dir o) s2 Hno)
      as [Hwalk | (e & He & Hwalk)]; rewrite Hwalk.
    + split_and!; [done | by left | done].
    + split_and!; [done | right; by exists e |].
      intros Hnone. rewrite Hnone in He. by apply elem_of_nil in He.
  - intros Hrecursive dir e Hread.
    rewrite Hrun, Hrecursive. unfold bind at 1. unfold ProcessDir.
    fold dir. mrun. by rewrite Hread.
Qed.

(** * Further properties *)

(** ** What a computation adds to the trace *)

Lemma emits_ret {X A} (P : @Event PipelineRun -> Prop) (a : A) :
  emits (X := X) P (ret a).
Proof. intros s. exists []. by rewrite app_nil_r. Qed.

Lemma emits_get {X} (P : @Event PipelineRun -> Prop) : emits (X := X) P get.
Proof. intros s. exists []. by rewrite app_nil_r. Qed.

Lemma emits_modify {X} (P : @Event PipelineRun -> Prop) (f : X -> X) :
  emits P (modify f).
Proof. intros s. exists []. cbn. by rewrite app_nil_r. Qed.

Lemma emits_fail {X A} (P : @Event PipelineRun -> Prop) (e : Error) :
  emits (X := X) (A := A) P (fail e).
Proof. intros s. exists []. by rewrite app_nil_r. Qed.

Lemma emits_panic {X A} (P : @Event PipelineRun -> Prop) :
  emits (X := X) (A := A) P panic.
Proof. intros s. exists []. by rewrite app_nil_r. Qed.

Lemma emits_ask {X A} (P : @Event PipelineRun -> Prop)
    (f : Trace -> Outcome A) ev :
  P ev -> emits (X := X) P (ask f ev).
Proof. intros Hev s. exists [ev]. split; [done | by constructor]. Qed.

Lemma emits_observe {X A} (P : @Event PipelineRun -> Prop)
    (f : Trace -> A) ev :
  P ev -> emits (X := X) P (observe f ev).
Proof. intros Hev s. exists [ev]. split; [done | by constructor]. Qed.

Lemma emits_emit {X} (P : @Event PipelineRun -> Prop) ev :
  P ev -> emits (X := X) P (emit ev).
Proof. intros Hev s. exists [ev]. split; [done | by constructor]. Qed.

Lemma emits_bind {X A B} (P : @Event PipelineRun -> Prop)
    (m : M X A) (k : A -> M X B) :
  emits P m -> (forall a, emits P (k a)) -> emits P (bind m k).
Proof.
  intros Hm Hk s. unfold bind. destruct (Hm s) as (evs & Htr & Hevs).
  destruct (m s) as [[a | e |] s1]; cbn [snd] in Htr |- *; [| by exists evs ..].
  destruct (Hk a s1) as (evs' & Htr' & Hevs').
  exists (evs ++ evs'). split; [| by apply Forall_app].
  by rewrite Htr', Htr, app_assoc.
Qed.

Lemma emits_wrapf {X A} (P : @Event PipelineRun -> Prop) (m : M X A)
    (msg : string) :
  emits P m -> emits P (wrapf m msg).
Proof.
  intros Hm s. unfold wrapf. destruct (Hm s) as (evs & Htr & Hevs).
  exists evs. by destruct (m s) as [[a | e |] s1].
Qed.

Lemma emits_try {X A} (P : @Event PipelineRun -> Prop) (m : M X A) :
  emits P m -> emits P (try m).
Proof.
  intros Hm s. unfold try. destruct (Hm s) as (evs & Htr & Hevs).
  exists evs. by destruct (m s) as [[a | e |] s1].
Qed.

Lemma emits_forEach {X A} (P : @Event PipelineRun -> Prop) (l : list A)
    (body : A -> M X unit) :
  (forall x, emits P (body x)) -> emits P (forEach l body).
Proof.
  intros Hbody. induction l as [| x l IH]; [apply emits_ret |].
  intros s. rewrite forEach_cons.
  exact (emits_bind P (body x) (fun _ => forEach l body) (Hbody x)
           (fun _ => IH) s).
Qed.

Lemma emits_atTrigger {A} (P : @Event PipelineRun -> Prop) (i : nat)
    (m : M (@Trigger PipelineRun PipelineRunSpecT) A) :
  emits P m -> emits P (atTrigger (UsesResolver := UsesResolver) i m).
Proof.
  intros Hm [o tr]. unfold atTrigger. cbn [fst snd].
  destruct (Triggers o !! i) as [t |]; [| exists []; by rewrite app_nil_r].
  destruct (Hm (t, tr)) as (evs & Htr & Hevs).
  destruct (m (t, tr)) as [r [t' tr']]. by exists evs.
Qed.

Lemma emits_mono {X A} (P Q : @Event PipelineRun -> Prop) (m : M X A) :
  (forall ev, P ev -> Q ev) -> emits P m -> emits Q m.
Proof.
  intros HPQ Hm s. destruct (Hm s) as (evs & Htr & Hevs).
  exists evs. split; [done |]. by eapply Forall_impl.
Qed.

(** Proves that a computation emits only events the tactic [side] accepts. *)
Ltac emits side :=
  repeat first
    [ progress cbv zeta
    | apply emits_bind; [| intros ?]
    | apply emits_wrapf
    | apply emits_try
    | apply emits_forEach; intros ?
    | apply emits_atTrigger
    | apply emits_ask; solve [side]
    | apply emits_observe; solve [side]
    | apply emits_emit; solve [side]
    | apply emits_ret
    | apply emits_get
    | apply emits_modify
    | apply emits_fail
    | apply emits_panic
    | case_match ].

(** ** Validate *)

(** X1. [Validate] only fills in what is missing: a picker, a resolver, a
    command runner and an editor that were supplied are kept, and so is
    every other option; whether it succeeds or not. *)
Theorem Validate_keeps_supplied o tr :
  let o1 := fst (snd (Validate env (o, tr))) in
  (Dir o1, Namespace o1, OutFile o1, TriggerName o1, PipelineName o1, Line o1,
   Recursive o1, Triggers o1)
  = (Dir o, Namespace o, OutFile o, TriggerName o, PipelineName o, Line o,
     Recursive o, Triggers o)
  /\ (forall pick, Input o = Some pick -> Input o1 = Some pick)
  /\ (forall u, Resolver o = Some u -> Resolver o1 = Some u)
  /\ (forall run, CommandRunner o = Some run -> CommandRunner o1 = Some run)
  /\ (Editor o <> "" -> Editor o1 = Editor o).
Proof.
  unfold Validate. mrun.
  repeat (case_match; mrun; try done);
    split_and!; try done; intros; simplify_eq/=; try done.
Qed.

(** X2. After a [Validate] that succeeds the options have a picker and a
    command runner, and an editor that was not supplied is the value of
    [JX_EDITOR].  Only what is missing is asked for: a supplied picker or
    resolver is not built again, and with an editor the environment is not
    looked at. *)
Theorem Validate_fills_missing o tr :
  fst (Validate env (o, tr)) = Ok tt ->
  let o1 := fst (snd (Validate env (o, tr))) in
  let tr1 := snd (snd (Validate env (o, tr))) in
  is_Some (Input o1) /\ is_Some (CommandRunner o1)
  /\ (Editor o = "" -> exists tr', Editor o1 = Getenv env tr' "JX_EDITOR")
  /\ exists evs,
      tr1 = tr ++ evs /\ Forall validation evs
      /\ (Input o <> None -> EvNewInput ∉ evs)
      /\ (Resolver o <> None -> EvCreateResolver ∉ evs)
      /\ (Editor o <> "" -> EvGetenv "JX_EDITOR" ∉ evs).
Proof.
  unfold Validate. mrun.
  repeat (case_match; mrun; try done); intros _; simplify_eq/=.
  all: split_and!; try (by eauto); try (by apply not_eq_None_Some);
    try (intros; simplify_eq/=; by eauto).
  all: rewrite <- ?app_assoc; eexists; (split; [reflexivity |]); cbn [app].
  all: split_and!;
    [ repeat (apply Forall_cons; split; [unfold validation; by auto |]);
      by apply Forall_nil
    | intros; first [ done | congruence
                    | repeat (apply not_elem_of_cons; split; [done |]);
                      apply not_elem_of_nil ] .. ].
Qed.

Lemma Validate_emits : emits validation (Validate env).
Proof.
  unfold Validate.
  emits ltac:(unfold validation; auto).
Qed.

(** X3. A [Validate] that fails ends the run at once: [Run] returns that
    error, wrapped, and has done nothing but the calls of the validation;
    no directory is read and nothing is asked of the operator.  The error
    is that of the base options or that of the creation of the resolver. *)
Theorem Run_stops_at_validation o tr (e : Error) :
  fst (Validate env (o, tr)) = Fail e ->
  Run env (o, tr)
  = (Fail (ErrWrapf e "failed to validate options"),
     snd (Validate env (o, tr)))
  /\ (exists evs,
        snd (snd (Run env (o, tr))) = tr ++ evs /\ Forall validation evs)
  /\ (exists e0,
        e = ErrWrapf e0 "failed to validate base options"
        \/ e = ErrWrapf e0 "failed to create a UsesResolver").
Proof.
  intros Hfail.
  assert (Run env (o, tr)
          = (Fail (ErrWrapf e "failed to validate options"),
             snd (Validate env (o, tr)))) as Hrun.
  { unfold Run. unfold bind at 1. unfold wrapf at 1.
    destruct (Validate env (o, tr)) as [res s1]. cbn in Hfail. by subst res. }
  split_and!; [done | |].
  - rewrite Hrun. cbn [snd]. apply (Validate_emits (o, tr)).
  - revert Hfail. unfold Validate. mrun.
    repeat (case_match; mrun; try done); intros; simplify_eq/=; eauto.
Qed.

(** ** More on loading the pipelines of a trigger *)

Lemma forEach_invariant {X A} (I : X -> Prop) (l : list A)
    (body : A -> @M PipelineRun X unit) :
  (forall x s, I (fst s) -> I (fst (snd (body x s)))) ->
  forall s, I (fst s) -> I (fst (snd (forEach l body s))).
Proof.
  intros Hbody. induction l as [| x l IH]; intros s Hs; [done |].
  rewrite forEach_cons. specialize (Hbody x s Hs).
  destruct (body x s) as [[a | e |] s1]; cbn [fst snd] in *; auto.
Qed.

Lemma forEach_failure {X A} (I : X -> Prop) (l : list A)
    (body : A -> @M PipelineRun X unit) :
  (forall x s, I (fst s) -> I (fst (snd (body x s)))) ->
  forall s e s',
    I (fst s) -> forEach l body s = (Fail e, s') ->
    exists x s1, x ∈ l /\ I (fst s1) /\ body x s1 = (Fail e, s').
Proof.
  intros Hbody. induction l as [| x l IH]; intros s e s' Hs Hrun; [done |].
  rewrite forEach_cons in Hrun. pose proof (Hbody x s Hs) as Hs1.
  destruct (body x s) as [[a | e1 |] s1] eqn:Hx; cbn [fst snd] in *.
  - destruct (IH s1 e s' Hs1 Hrun) as (y & s2 & Hy & Hs2 & Hbody2).
    exists y, s2. split_and!; [by right | done | done].
  - injection Hrun as <- <-. exists x, s. split_and!; [by left | done | done].
  - done.
Qed.

Lemma keysAgree_addPipeline (name : string) (pr : option PipelineRun) t :
  keysAgree t -> keysAgree (addPipeline name pr t).
Proof.
  intros Ht x. cbn [addPipeline Names Pipelines].
  rewrite elem_of_app, list_elem_of_singleton, (Ht x).
  destruct (decide (name = x)) as [-> | Hne].
  - rewrite lookup_insert_eq. split; [by eauto | by right].
  - rewrite lookup_insert_ne by done. split; [| by left].
    by intros [H | ->].
Qed.

Lemma loadPresubmit_keysAgree o (dir : string) (i : nat)
    (s : Trigger * @Trace PipelineRun) :
  keysAgree (fst s) -> keysAgree (fst (snd (loadPresubmit env o dir i s))).
Proof.
  destruct s as [t tr]. cbn [fst]. intros Ht.
  destruct (Presubmits (Spec (Config t)) !! i) as [r |] eqn:Hi.
  - rewrite (loadPresubmit_step _ _ _ _ _ _ Hi).
    destruct (decide (SourcePath r <> "")); [| done].
    destruct (LoadEffectivePipelineRun _ _ _ _); [| done ..].
    cbn [fst snd]. by apply (keysAgree_addPipeline _ _ t).
  - unfold loadPresubmit. mrun. by rewrite Hi.
Qed.

Lemma loadPostsubmit_keysAgree o (dir : string) (i : nat)
    (s : Trigger * @Trace PipelineRun) :
  keysAgree (fst s) -> keysAgree (fst (snd (loadPostsubmit env o dir i s))).
Proof.
  destruct s as [t tr]. cbn [fst]. intros Ht.
  destruct (Postsubmits (Spec (Config t)) !! i) as [r |] eqn:Hi.
  - rewrite (loadPostsubmit_step _ _ _ _ _ _ Hi).
    destruct (decide (SourcePath r <> "")); [| done].
    destruct (LoadEffectivePipelineRun _ _ _ _); [| done ..].
    cbn [fst snd]. by apply (keysAgree_addPipeline _ _ t).
  - unfold loadPostsubmit. mrun. by rewrite Hi.
Qed.

(** [loadTriggerPipelines] keeps the job names and the pipelines of a
    trigger in step, also when it fails. *)
Lemma loadTriggerPipelines_keysAgree o (dir : string) t tr :
  keysAgree t ->
  keysAgree (fst (snd (loadTriggerPipelines env o dir (t, tr)))).
Proof.
  intros Ht. unfold loadTriggerPipelines.
  unfold bind at 1. unfold get at 1. cbn [fst snd].
  pose proof (forEach_invariant keysAgree
                (seq 0 (length (Presubmits (Spec (Config t)))))
                (loadPresubmit env o dir)
                (loadPresubmit_keysAgree o dir) (t, tr) Ht) as H1.
  unfold bind at 1.
  destruct (forEach _ (loadPresubmit env o dir) _) as [[[] | e |] s1];
    [| done ..].
  pose proof (forEach_invariant keysAgree
                (seq 0 (length (Postsubmits (Spec (Config t)))))
                (loadPostsubmit env o dir)
                (loadPostsubmit_keysAgree o dir) s1 H1) as H2.
  unfold bind at 1.
  by destruct (forEach _ (loadPostsubmit env o dir) _) as [[[] | e |] s2].
Qed.

Lemma fmap_insert_same {A B} (f : A -> B) (l : list A) (i : nat) (x y : A) :
  l !! i = Some x -> f y = f x -> f <$> <[i := y]> l = f <$> l.
Proof.
  intros Hi Hf. rewrite list_fmap_insert, Hf.
  apply list_insert_id. by rewrite list_lookup_fmap, Hi.
Qed.

Lemma loadPresubmit_sameSources (c : @TriggerConfig PipelineRunSpecT) o
    (dir : string) (i : nat) (s : Trigger * @Trace PipelineRun) :
  sameSources c (fst s) ->
  sameSources c (fst (snd (loadPresubmit env o dir i s))).
Proof.
  destruct s as [t tr]. cbn [fst]. intros [Hpre Hpost].
  destruct (Presubmits (Spec (Config t)) !! i) as [r |] eqn:Hi.
  - assert (forall t1, Config t1 = Config t ->
              sameSources c (setPresubmit i (fixAgent env r) t1)) as Hset.
    { intros t1 Ht1. split; cbn; rewrite Ht1; [| done].
      rewrite <- Hpre. apply (fmap_insert_same _ _ _ r); [done |].
      apply fixAgent_spec. }
    rewrite (loadPresubmit_step _ _ _ _ _ _ Hi).
    destruct (decide (SourcePath r <> "")); [| by apply Hset].
    destruct (LoadEffectivePipelineRun _ _ _ _); [by apply Hset | done ..].
  - unfold loadPresubmit. mrun. by rewrite Hi.
Qed.

Lemma loadPostsubmit_sameSources (c : @TriggerConfig PipelineRunSpecT) o
    (dir : string) (i : nat) (s : Trigger * @Trace PipelineRun) :
  sameSources c (fst s) ->
  sameSources c (fst (snd (loadPostsubmit env o dir i s))).
Proof.
  destruct s as [t tr]. cbn [fst]. intros [Hpre Hpost].
  destruct (Postsubmits (Spec (Config t)) !! i) as [r |] eqn:Hi.
  - assert (forall t1, Config t1 = Config t ->
              sameSources c (setPostsubmit i (fixAgent env r) t1)) as Hset.
    { intros t1 Ht1. split; cbn; rewrite Ht1; [done |].
      rewrite <- Hpost. apply (fmap_insert_same _ _ _ r); [done |].
      apply fixAgent_spec. }
    rewrite (loadPostsubmit_step _ _ _ _ _ _ Hi).
    destruct (decide (SourcePath r <> "")); [| by apply Hset].
    destruct (LoadEffectivePipelineRun _ _ _ _); [by apply Hset | done ..].
  - unfold loadPostsubmit. mrun. by rewrite Hi.
Qed.

Lemma same_source_at {A} (jobs jobs' : list (@JobBase A)) (i : nat)
    (r1 : @JobBase A) :
  SourcePath <$> jobs' = SourcePath <$> jobs ->
  jobs' !! i = Some r1 ->
  exists r0 : @JobBase A, r0 ∈ jobs /\ SourcePath r0 = SourcePath r1.
Proof.
  intros Hsame Hi.
  assert ((SourcePath <$> jobs) !! i = Some (SourcePath r1)) as H
    by (by rewrite <- Hsame, list_lookup_fmap, Hi).
  apply list_lookup_fmap_Some in H as (r0 & Hr0 & H0).
  exists r0. split; [| done]. by eapply list_elem_of_lookup_2.
Qed.

(** X4. A load of the pipelines of a trigger fails only because the
    resolver failed for one of its job specs with a source path; the error
    returned is that of the resolver wrapped with the path it was called
    with, and that call is the last thing the load did. *)
Theorem load_failure_names_path o (dir : string) t tr (e' : Error) :
  let out := loadTriggerPipelines env o dir (t, tr) in
  fst out = Fail e' ->
  exists r e tr0,
    (r ∈ Presubmits (Spec (Config t)) \/ r ∈ Postsubmits (Spec (Config t)))
    /\ SourcePath r <> ""
    /\ LoadEffectivePipelineRun env tr0 (Resolver o)
         (Filepath.Join dir (SourcePath r)) = Fail e
    /\ e' = ErrWrapf e ("failed to load " +:+ Filepath.Join dir (SourcePath r))
    /\ snd (snd out)
       = tr0 ++ [EvLoadEffectivePipelineRun (Filepath.Join dir (SourcePath r))].
Proof.
  intros out Hout. subst out.
  destruct (loadTriggerPipelines env o dir (t, tr)) as [res s'] eqn:Hrun.
  cbn [fst snd] in *. subst res. revert Hrun.
  unfold loadTriggerPipelines.
  unfold bind at 1. unfold get at 1. cbn [fst snd].
  set (c := Config t).
  assert (sameSources c t) as Ht by done.
  pose proof (forEach_invariant (sameSources c)
                (seq 0 (length (Presubmits (Spec c))))
                (loadPresubmit env o dir)
                (loadPresubmit_sameSources c o dir) (t, tr) Ht) as H1.
  unfold bind at 1.
  destruct (forEach _ (loadPresubmit env o dir) _) as [[[] | e1 |] s1] eqn:Hloop1;
    cbn [fst snd] in *; [| | done].
  - unfold bind at 1.
    destruct (forEach _ (loadPostsubmit env o dir) _) as [[[] | e2 |] s2]
      eqn:Hloop2; cbn [fst snd]; [done | | done].
    intros [= -> ->].
    apply (forEach_failure (sameSources c) _ _
             (loadPostsubmit_sameSources c o dir) _ _ _ H1) in Hloop2
      as (i & [t2 tr2] & _ & [_ Hposts] & Hbody).
    cbn [fst] in Hposts.
    destruct (Postsubmits (Spec (Config t2)) !! i) as [r2 |] eqn:Hi.
    + rewrite (loadPostsubmit_step _ _ _ _ _ _ Hi) in Hbody.
      destruct (decide (SourcePath r2 <> "")) as [Hsrc |]; [| done].
      destruct (LoadEffectivePipelineRun _ _ _ _) as [| e |] eqn:Hcall;
        [done | | done].
      injection Hbody as <- <-.
      destruct (same_source_at _ _ _ _ Hposts Hi) as (r0 & Hr0 & Hsame).
      exists r0, e, tr2. rewrite Hsame. split_and!; auto.
    + unfold loadPostsubmit in Hbody. revert Hbody. mrun. by rewrite Hi.
  - intros [= -> ->].
    apply (forEach_failure (sameSources c) _ _
             (loadPresubmit_sameSources c o dir) (t, tr) _ _ Ht) in Hloop1
      as (i & [t2 tr2] & _ & [Hpres _] & Hbody).
    cbn [fst] in Hpres.
    destruct (Presubmits (Spec (Config t2)) !! i) as [r2 |] eqn:Hi.
    + rewrite (loadPresubmit_step _ _ _ _ _ _ Hi) in Hbody.
      destruct (decide (SourcePath r2 <> "")) as [Hsrc |]; [| done].
      destruct (LoadEffectivePipelineRun _ _ _ _) as [| e |] eqn:Hcall;
        [done | | done].
      injection Hbody as <- <-.
      destruct (same_source_at _ _ _ _ Hpres Hi) as (r0 & Hr0 & Hsame).
      exists r0, e, tr2. rewrite Hsame. split_and!; auto.
    + unfold loadPresubmit in Hbody. revert Hbody. mrun. by rewrite Hi.
Qed.

(** ** Scanning a directory *)

Lemma setTriggers_same o : setTriggers (Triggers o) o = o.
Proof. by destruct o. Qed.

Lemma processEntry_appends (dir : string) (f : FileInfo) o tr :
  exists new,
    fst (snd (processEntry env dir f (o, tr)))
    = setTriggers (Triggers o ++ new) o
    /\ (new = []
        \/ candidate f
           /\ exists t, new = [t] /\ Path t = triggersFileOf dir f
                        /\ keysAgree t).
Proof.
  assert (exists new,
             o = setTriggers (Triggers o ++ new) o
             /\ (new = []
                 \/ candidate f
                    /\ exists t, new = [t] /\ Path t = triggersFileOf dir f
                                 /\ keysAgree t))
    as Hsame.
  { exists []. rewrite app_nil_r, setTriggers_same. auto. }
  unfold processEntry.
  destruct (IsDir f) eqn:Hdir; cbn [negb orb]; [| exact Hsame].
  destruct (Strings.HasPrefix (FileName f) ".") eqn:Hdot; [exact Hsame |].
  mrun.
  destruct (FileExists env tr _) as [[|] | e |]; cbn [negb fst snd];
    [| exact Hsame ..].
  destruct (LoadFile env _ _) as [c | e |]; cbn [fst snd]; [| exact Hsame ..].
  unfold atTrigger. cbn [fst snd appendTrigger setTriggers Triggers].
  rewrite lookup_app_r, Nat.sub_diag by done. cbn [lookup list_lookup].
  match goal with
  | |- context [loadTriggerPipelines env ?o1 ?d (?t1, ?tr1)] =>
      assert (keysAgree t1) as Hkeys
        by (intros x; cbn; rewrite lookup_empty, elem_of_nil;
            split; [done | by intros [? ?]]);
      apply (loadTriggerPipelines_keysAgree o1 d t1 tr1) in Hkeys
  end.
  destruct (loadTriggerPipelines env _ _ _) as [res [t' tr']] eqn:Hload.
  apply loadTriggerPipelines_spec in Hload
    as (n & m & l & _ & _ & _ & _ & _ & Hpath & _).
  exists [t']. split.
  - destruct res; cbn [fst snd setTriggers Triggers];
      by rewrite <- (Nat.add_0_r (length (Triggers o))), insert_app_r.
  - right. split; [done |]. by exists t'.
Qed.

Lemma forEach_processEntry_appends (dir : string) (fs : list FileInfo) o tr :
  exists new,
    fst (snd (forEach fs (processEntry env dir) (o, tr)))
    = setTriggers (Triggers o ++ new) o
    /\ Path <$> new `sublist_of` triggersFileOf dir <$> filter candidate fs
    /\ Forall keysAgree new.
Proof.
  revert o tr. induction fs as [| f fs IH]; intros o tr.
  - exists []. by rewrite app_nil_r, setTriggers_same.
  - rewrite forEach_cons.
    destruct (processEntry_appends dir f o tr) as (new1 & Ho1 & Hnew1).
    destruct (processEntry env dir f (o, tr)) as [res [o1 tr1]].
    cbn [fst snd] in Ho1. subst o1.
    assert (Path <$> new1
            `sublist_of` triggersFileOf dir <$> filter candidate (f :: fs))
      as Hsub1.
    { destruct Hnew1 as [-> | (Hf & t & -> & Hpath & _)];
        [apply sublist_nil_l |].
      rewrite filter_cons_True by done. cbn. rewrite Hpath.
      apply sublist_skip, sublist_nil_l. }
    assert (Forall keysAgree new1) as Hkeys1.
    { destruct Hnew1 as [-> | (Hf & t & -> & _ & Hkeys)]; [done |].
      by constructor. }
    destruct res as [[] | e |]; cbn [fst snd]; [| by exists new1 ..].
    destruct (IH (setTriggers (Triggers o ++ new1) o) tr1)
      as (new2 & -> & Hnew2 & Hkeys2).
    exists (new1 ++ new2). split_and!.
    + cbn [setTriggers Triggers]. by rewrite app_assoc.
    + rewrite fmap_app.
      destruct Hnew1 as [-> | (Hf & t & -> & Hpath & _)].
      * cbn [app fmap list_fmap].
        destruct (decide (candidate f)).
        -- rewrite filter_cons_True by done. by apply sublist_cons.
        -- by rewrite filter_cons_False.
      * rewrite filter_cons_True by done. cbn. rewrite Hpath.
        by apply sublist_skip.
    + by apply Forall_app.
Qed.

(** X5. Scanning a directory only appends triggers: whatever the outcome,
    the triggers recorded before are still there, unchanged and in front,
    and no other option is touched.  The paths of the triggers added are,
    in the order of the listing, trigger files of subdirectories whose
    name does not start with a dot; none is added when the directory
    cannot be listed. *)
Theorem ProcessDir_appends (dir : string) o tr :
  exists new,
    fst (snd (ProcessDir env dir (o, tr)))
    = setTriggers (Triggers o ++ new) o
    /\ match ReadDir env tr dir with
       | Ok fs =>
           Path <$> new
           `sublist_of` triggersFileOf dir <$> filter candidate fs
       | _ => new = []
       end.
Proof.
  unfold ProcessDir. mrun.
  destruct (ReadDir env tr dir) as [fs | e |]; cbn [fst snd].
  - destruct (forEach_processEntry_appends dir fs o (tr ++ [EvReadDir dir]))
      as (new & Hnew & Hsub & _).
    exists new. split; [| done].
    by destruct (forEach fs _ _) as [[[] | |] s1].
  - exists []. by rewrite app_nil_r, setTriggers_same.
  - exists []. by rewrite app_nil_r, setTriggers_same.
Qed.

(** ** The recursive scan *)

Lemma forEach_app {X A} (l1 l2 : list A)
    (body : A -> @M PipelineRun X unit) s :
  forEach (l1 ++ l2) body s
  = (forEach l1 body ;; forEach l2 body) s.
Proof.
  revert s. induction l1 as [| x l1 IH]; intros s; [done |].
  cbn [app]. rewrite forEach_cons. unfold bind at 1.
  rewrite forEach_cons.
  destruct (body x s) as [[[] | e |] s1]; [| done ..].
  rewrite IH. reflexivity.
Qed.

Lemma forEach_flat_map {X A B} (g : A -> list B) (l : list A)
    (body : B -> @M PipelineRun X unit) s :
  forEach (flat_map g l) body s
  = forEach l (fun x => forEach (g x) body) s.
Proof.
  revert s. induction l as [| x l IH]; intros s; [done |].
  cbn [flat_map]. rewrite forEach_app, forEach_cons. unfold bind.
  destruct (forEach (g x) body s) as [[[] | e |] s1]; [| done ..].
  apply IH.
Qed.

Lemma forEach_ext {X A} (l : list A)
    (body1 body2 : A -> @M PipelineRun X unit) :
  Forall (fun x => forall s, body1 x s = body2 x s) l ->
  forall s, forEach l body1 s = forEach l body2 s.
Proof.
  induction 1 as [| x l Hx _ IH]; intros s; [done |].
  rewrite !forEach_cons, Hx.
  by destruct (body2 x s) as [[[] | e |] s1].
Qed.

(** X6. In recursive mode, on a tree every entry of which can be read, the
    walk scans the directories named [.lighthouse], every one of them and
    nothing else, parents before their entries and entries in the order of
    the listing, and stops at the first scan that fails. *)
Theorem walk_scans_lighthouse_dirs (n : FsNode) (path : string)
    (s : Options * @Trace PipelineRun) :
  treeErrors n = [] ->
  walk (lighthouseWalkFn env) path n s
  = forEach (lighthouseDirs path n) (ProcessDir env) s.
Proof.
  revert path s.
  induction n as [name | name entries IH | name e | name e]
    using FsNode_induction; intros path s Hclean; [done | | done ..].
  cbn [walk lighthouseDirs treeErrors] in *.
  rewrite forEach_app. unfold bind.
  assert (lighthouseWalkFn env path
            (Some {| FileName := name; IsDir := true |}) None s
          = forEach (if decide (name = ".lighthouse") then [path] else [])
              (ProcessDir env) s) as ->.
  { unfold lighthouseWalkFn. cbn [IsDir FileName negb orb].
    destruct (decide (name = ".lighthouse")) as [Hname | Hname].
    - rewrite bool_decide_eq_true_2 by done. cbn [negb].
      rewrite forEach_cons.
      by destruct (ProcessDir env path s) as [[[] | |] s1].
    - by rewrite bool_decide_eq_false_2. }
  destruct (forEach _ (ProcessDir env) s) as [[[] | e |] s1]; [| done ..].
  rewrite forEach_flat_map. apply forEach_ext.
  clear s s1. induction entries as [| c rest IHrest]; [done |].
  apply Forall_cons in IH as [IHc IH].
  cbn [flat_map] in Hclean. apply app_eq_nil in Hclean as [Hc Hrest].
  constructor; [| by apply IHrest].
  intros s. by apply IHc.
Qed.

(** ** The selection *)

Lemma last_filter_elem_of {A} (P : A -> Prop) `{!forall x, Decision (P x)}
    (l : list A) (x : A) :
  last (filter P l) = Some x -> x ∈ l /\ P x.
Proof.
  intros Hlast. apply last_Some in Hlast as [l' Hl'].
  assert (x ∈ filter P l) as Hx
    by (rewrite Hl'; apply elem_of_app; right; apply list_elem_of_here).
  by apply list_elem_of_filter in Hx as [? ?].
Qed.

(** X7. The selection is sound: [processTriggers] either stops, having
    shown pick lists only and left the options alone, or goes on to
    display a pipeline which is there (not nil) under the name displayed
    in a trigger which is recorded, the trigger and the pipeline being the
    ones named by [--trigger] and [--pipeline] where these are given.  It
    shows at most two pick lists, and none when both names are given. *)
Theorem selection_sound o tr :
  let out := processTriggers env (o, tr) in
  exists picks,
    Forall picking picks
    /\ (length picks <= 2)%nat
    /\ (TriggerName o <> "" -> PipelineName o <> "" -> picks = [])
    /\ (fst out <> Ok tt /\ snd out = (o, tr ++ picks)
        \/ exists t (name : string) (pipeline : PipelineRun),
             t ∈ Triggers o
             /\ (TriggerName o <> "" -> Path t = TriggerName o)
             /\ (PipelineName o <> "" -> name = PipelineName o)
             /\ name <> ""
             /\ Pipelines t !! name = Some (Some pipeline)
             /\ out = displayPipeline env t name pipeline (o, tr ++ picks)).
Proof.
  intros out. subst out.
  pose (pickTrigger :=
          EvPickNameWithDefault (PipelineRun := PipelineRun)
            (Path <$> Triggers o) "pick the trigger config: " ""
            "select the set of triggers to process").
  assert (picking pickTrigger) as HpickTrigger by (by eexists _, _, _, _).
  set (Sound := fun out : Outcome unit * (Options * @Trace PipelineRun) =>
    exists picks,
      Forall picking picks
      /\ (length picks <= 2)%nat
      /\ (TriggerName o <> "" -> PipelineName o <> "" -> picks = [])
      /\ (fst out <> Ok tt /\ snd out = (o, tr ++ picks)
          \/ exists t (name : string) (pipeline : PipelineRun),
               t ∈ Triggers o
               /\ (TriggerName o <> "" -> Path t = TriggerName o)
               /\ (PipelineName o <> "" -> name = PipelineName o)
               /\ name <> ""
               /\ Pipelines t !! name = Some (Some pipeline)
               /\ out = displayPipeline env t name pipeline
                          (o, tr ++ picks))).
  change (Sound (processTriggers env (o, tr))).
  assert (forall (picks : list (@Event PipelineRun)) (res : Outcome unit),
             res <> Ok tt ->
             Forall picking picks -> (length picks <= 2)%nat ->
             (TriggerName o <> "" -> PipelineName o <> "" -> picks = []) ->
             Sound (res, (o, tr ++ picks))) as Hstop.
  { intros picks res Hres H1 H2 H3. exists picks.
    split_and!; [done .. |]. left. by split. }
  (* after the choice of the trigger *)
  assert (forall (name : string) (picks : list (@Event PipelineRun)),
             Forall picking picks -> (length picks <= 1)%nat ->
             (TriggerName o <> "" -> picks = [] /\ name = TriggerName o) ->
             Sound
               (match triggersByPath (Triggers o) !! name with
                | None =>
                   fail (ErrInvalidOption "trigger" (TriggerName o)
                           ("available names "
                            +:+ Strings.Join (Path <$> Triggers o) ", "))
                | Some trigger =>
                   (pipelineName <-
                      (if decide (PipelineName o = "") then
                         pipelineName <-
                           wrapf (PickNameWithDefault (Names trigger)
                                    "pick the pipeline: " ""
                                    "select the pipeline to view")
                             "failed to pick trigger file" ;;
                         if decide (pipelineName = "")
                         then fail (ErrErrorf "no trigger file selected")
                         else ret pipelineName
                       else ret (PipelineName o)) ;;
                    match Pipelines trigger !! pipelineName with
                    | Some (Some pipeline) =>
                        displayPipeline env trigger pipelineName pipeline
                    | _ =>
                        fail (ErrInvalidOption "pipeline" (PipelineName o)
                                ("available names "
                                 +:+ Strings.Join (Names trigger) ", "))
                    end)
                end (o, tr ++ picks))) as Hrest.
  { intros name picks Hpicks Hlen Hexplicit.
    rewrite triggersByPath_lookup.
    destruct (last _) as [t |] eqn:Hlast; cycle 1.
    { unfold fail. apply Hstop; [done | done | lia |].
      intros H _. by apply Hexplicit. }
    apply last_filter_elem_of in Hlast as [Ht Hpath].
    assert (TriggerName o <> "" -> Path t = TriggerName o) as Hnamed
      by (intros H; destruct (Hexplicit H) as [_ <-]; done).
    pose (pickPipeline :=
            EvPickNameWithDefault (PipelineRun := PipelineRun)
              (Names t) "pick the pipeline: " ""
              "select the pipeline to view").
    assert (picking pickPipeline) as HpickPipeline
      by (by eexists _, _, _, _).
    destruct (decide (PipelineName o = "")) as [Hp | Hp].
    - unfold PickNameWithDefault. mrun.
      destruct (Input o) as [pick |]; mrun; cycle 1.
      { apply Hstop; [done | done | lia |]. intros _ H. done. }
      fold pickPipeline.
      assert (Forall picking (picks ++ [pickPipeline])) as Hall
        by (apply Forall_app; split; [done | by constructor]).
      assert (length (picks ++ [pickPipeline]) <= 2)%nat as Hlen2
        by (rewrite length_app; cbn; lia).
      rewrite <- app_assoc.
      destruct (pick _ _ _ _ _) as [pipelineName | e |]; cbn [fst snd].
      + destruct (decide (pipelineName = "")) as [Hempty | Hempty].
        { apply Hstop; [done | done | done |]. intros _ H. done. }
        destruct (Pipelines t !! pipelineName) as [[pipeline |] |] eqn:Hpipe.
        * exists (picks ++ [pickPipeline]).
          split_and!; [done | done | done |].
          right. exists t, pipelineName, pipeline. by split_and!.
        * apply Hstop; [done | done | done |]. intros _ H. done.
        * apply Hstop; [done | done | done |]. intros _ H. done.
      + apply Hstop; [done | done | done |]. intros _ H. done.
      + apply Hstop; [done | done | done |]. intros _ H. done.
    - mrun.
      assert (TriggerName o <> "" -> PipelineName o <> "" -> picks = [])
        as Hnone by (intros H _; by apply Hexplicit).
      destruct (Pipelines t !! PipelineName o) as [[pipeline |] |] eqn:Hpipe.
      + exists picks. split_and!; [done | lia | done |].
        right. exists t, (PipelineName o), pipeline. by split_and!.
      + apply Hstop; [done | done | lia | done].
      + apply Hstop; [done | done | lia | done]. }
  clearbody Sound.
  unfold processTriggers.
  unfold bind at 1. unfold get at 1. cbn [fst snd].
  unfold bind at 1.
  destruct (decide (TriggerName o = "")) as [Ht | Ht].
  - unfold PickNameWithDefault at 1. unfold wrapf at 1.
    unfold bind at 1. unfold bind at 1. unfold get at 1. cbn [fst snd].
    destruct (Input o) as [pick |] eqn:Hinput; cycle 1.
    { unfold panic at 1. cbn [fst snd]. rewrite <- (app_nil_r tr).
      apply Hstop; [done | done | cbn; lia | done]. }
    unfold ask at 1. cbn [fst snd]. fold pickTrigger.
    destruct (pick _ _ _ _ _) as [name | e |]; cbn [fst snd].
    + destruct (decide (name = "")) as [Hempty | Hempty].
      { unfold fail at 1. cbn [fst snd].
        apply Hstop; [done | by constructor | cbn; lia | done]. }
      unfold ret at 1. cbn [fst snd].
      apply (Hrest name [pickTrigger]); [by constructor | cbn; lia | done].
    + apply Hstop; [done | by constructor | cbn; lia | done].
    + apply Hstop; [done | by constructor | cbn; lia | done].
  - unfold ret at 1. cbn [fst snd].
    pose proof (Hrest (TriggerName o) []) as H.
    rewrite app_nil_r in H. apply H; [done | cbn; lia | done].
Qed.

(** X8. A pipeline name which is not among the pipelines of the selected
    trigger, or under which the trigger holds no pipeline, fails the run
    with the invalid option error, whose message lists the job names of
    the trigger; the value it reports is that of [--pipeline], which is
    empty when the name was picked. *)
Theorem unknown_pipeline_rejected o tr t :
  TriggerName o <> "" ->
  last (filter (fun t => Path t = TriggerName o) (Triggers o)) = Some t ->
  let rejected :=
    Fail (A := unit)
      (ErrInvalidOption "pipeline" (PipelineName o)
         ("available names " +:+ Strings.Join (Names t) ", ")) in
  (PipelineName o <> "" ->
   (Pipelines t !! PipelineName o = None
    \/ Pipelines t !! PipelineName o = Some None) ->
   processTriggers env (o, tr) = (rejected, (o, tr)))
  /\ (forall (pick : @Picker PipelineRun) (name : string),
        PipelineName o = "" ->
        Input o = Some pick ->
        pick tr (Names t) "pick the pipeline: " ""
          "select the pipeline to view" = Ok name ->
        name <> "" ->
        (Pipelines t !! name = None \/ Pipelines t !! name = Some None) ->
        processTriggers env (o, tr)
        = (rejected,
           (o, tr ++ [EvPickNameWithDefault (Names t) "pick the pipeline: "
                        "" "select the pipeline to view"]))).
Proof.
  intros Hname Ht rejected. rewrite <- triggersByPath_lookup in Ht.
  split.
  - intros Hpipeline Hnone. unfold processTriggers. mrun.
    rewrite decide_False by done. mrun. rewrite Ht.
    rewrite decide_False by done. mrun.
    by destruct Hnone as [-> | ->].
  - intros pick name Hpipeline Hinput Hpick Hne Hnone.
    unfold processTriggers, PickNameWithDefault. mrun.
    rewrite decide_False by done. mrun. rewrite Ht.
    rewrite decide_True by done. mrun. rewrite Hinput. mrun.
    rewrite Hpick. rewrite decide_False by done. mrun.
    subst rejected. rewrite Hpipeline.
    by destruct Hnone as [-> | ->].
Qed.

(** ** Saving, opening or printing *)

Lemma app_string_nonempty (s t : string) : t <> "" -> s +:+ t <> "".
Proof. destruct s; [done | discriminate]. Qed.

Lemma joinPath_nonempty (dir name : string) :
  name <> "" -> Os.joinPath dir name <> "".
Proof.
  intros Hname. unfold Os.joinPath.
  destruct (String.prefix _ _); by repeat apply app_string_nonempty.
Qed.

Lemma createOutFile_emits (name : string) :
  emits (fun ev => ~ printed ev) (createOutFile env name).
Proof.
  unfold createOutFile, Abs, TempFile.
  emits ltac:(intros [? [=]]).
Qed.

(** With an editor and no output file, [createOutFile] sets the output
    file to a name which is not empty, or fails and leaves the options
    alone. *)
Lemma createOutFile_sets (name : string) o tr :
  Editor o <> "" -> OutFile o = "" ->
  let out := createOutFile env name (o, tr) in
  (exists tmp, tmp <> "" /\ fst out = Ok tt
               /\ fst (snd out) = setOutFile tmp o)
  \/ (fst out <> Ok tt /\ fst (snd out) = o).
Proof.
  intros Heditor Hout out. subst out.
  pose proof (Abs_keeps (X := Options) (Dir o) (o, tr)) as Hkeep.
  set (Sets := fun out : Outcome unit * (Options * @Trace PipelineRun) =>
    (exists tmp, tmp <> "" /\ fst out = Ok tt
                 /\ fst (snd out) = setOutFile tmp o)
    \/ (fst out <> Ok tt /\ fst (snd out) = o)).
  change (Sets (createOutFile env name (o, tr))).
  assert (forall (base : string) (s : Options * @Trace PipelineRun),
             fst s = o ->
             Os.containsByte "/" base = false ->
             Sets
               ((tmpFile <-
                   wrapf (TempFile env ""
                            (base +:+ "-"
                             +:+ Strings.ReplaceAll name
                                   Filepath.PathSeparator "-"
                             +:+ "-*.yaml"))
                     "failed to create temp file" ;;
                 modify (setOutFile tmpFile)) s)) as Htemp.
  { intros base [o1 tr1] Ho1 Hbase. cbn [fst] in Ho1. subst o1.
    unfold TempFile. rewrite decide_True by done.
    rewrite (prefixAndSuffix_pattern base name Hbase). mrun.
    destruct (CreateTemp env _ _ _ _) as [random | e |]; cbn [fst snd];
      [| by right ..].
    left. eexists. split_and!; [| done | done].
    apply joinPath_nonempty. by repeat apply app_string_nonempty. }
  assert (forall tr1 : @Trace PipelineRun, Sets (Panic, (o, tr1)))
    as Hpanic by (by right).
  clearbody Sets.
  unfold createOutFile.
  unfold bind at 1. unfold get at 1. cbn [fst snd].
  rewrite decide_True by done.
  unfold bind at 1. unfold try.
  destruct (Abs env (Dir o) (o, tr)) as [[a | e |] [o1 tr1]];
    cbn [fst snd] in *; subst o1.
  - apply Htemp; [done |]. pose proof (Split_file_no_separator a).
    by case_decide.
  - apply Htemp; [done |]. by case_decide.
  - apply Hpanic.
Qed.

Lemma createOutFile_idle (name : string) o tr :
  Editor o = "" \/ OutFile o <> "" ->
  createOutFile env name (o, tr) = (Ok tt, (o, tr)).
Proof.
  intros Hidle. unfold createOutFile. mrun.
  rewrite decide_False; [done |]. intros [? ?]. by destruct Hidle.
Qed.

Lemma saveAndOpen_emits (pipeline : PipelineRun) (path editor : string) :
  emits (fun ev => ~ printed ev)
    (wrapf (ask (fun tr => SaveFile env tr pipeline path)
              (EvSaveFile pipeline path))
       ("failed to save file " +:+ path) ;;
     Infof ("saved file " +:+ ColorInfo env path) ;;
     openInEditor env path editor).
Proof.
  unfold openInEditor, targetLine, findFirstStepLine, runCommand, Infof.
  emits ltac:(intros [? [=]]).
Qed.

Lemma save_emits (pipeline : PipelineRun) (path : string) :
  emits (X := @Options PipelineRun PipelineRunSpecT UsesResolver)
    (fun ev => ~ printed ev /\ ~ editing ev)
    (wrapf (ask (fun tr => SaveFile env tr pipeline path)
              (EvSaveFile pipeline path))
       ("failed to save file " +:+ path) ;;
     Infof ("saved file " +:+ ColorInfo env path) ;;
     ret tt).
Proof.
  unfold Infof.
  emits ltac:(split; [intros [? [=]]
                     | intros [[=] | [(? & ? & ? & [=])
                                     | [[? [=]] | [? [=]]]]]]).
Qed.

(** With an output file, [writePipeline] prints nothing; without an
    editor it only saves. *)
Lemma writePipeline_saves (trigger : Trigger) (name : string)
    (pipeline : PipelineRun) o tr :
  OutFile o <> "" ->
  exists evs,
    snd (snd (writePipeline env trigger name pipeline (o, tr))) = tr ++ evs
    /\ Forall (fun ev => ~ printed ev) evs
    /\ (Editor o = "" -> Forall (fun ev => ~ editing ev) evs).
Proof.
  intros Hout. unfold writePipeline.
  unfold bind at 1. unfold get at 1. cbn [fst snd].
  rewrite decide_True by done.
  destruct (decide (Editor o <> "")) as [Heditor | Heditor].
  - destruct (saveAndOpen_emits pipeline (OutFile o) (Editor o) (o, tr))
      as (evs & Htr & Hevs).
    exists evs. split_and!; [done | done | done].
  - destruct (save_emits pipeline (OutFile o) (o, tr)) as (evs & Htr & Hevs).
    exists evs. split_and!; [done | |].
    + eapply Forall_impl; [exact Hevs |]. by intros ev [? ?].
    + intros _. eapply Forall_impl; [exact Hevs |]. by intros ev [? ?].
Qed.

(** X9. A pipeline is either printed or saved, never both: without
    editor and output file [displayPipeline] touches no file, starts no
    command and leaves the options alone; with an editor or an output file
    nothing goes to the standard output; and without an editor no
    temporary file is made, the file is not read back and no command is
    started.  The only option it ever changes is the output file, and that
    only with an editor and none given. *)
Theorem display_prints_or_saves (trigger : Trigger) (name : string)
    (pipeline : PipelineRun) o tr :
  let out := displayPipeline env trigger name pipeline (o, tr) in
  let o' := fst (snd out) in
  exists evs,
    snd (snd out) = tr ++ evs
    /\ o' = setOutFile (OutFile o') o
    /\ (Editor o = "" \/ OutFile o <> "" -> o' = o)
    /\ (Editor o = "" -> OutFile o = "" ->
        Forall (fun ev => ~ saving ev) evs)
    /\ (Editor o <> "" \/ OutFile o <> "" ->
        Forall (fun ev => ~ printed ev) evs)
    /\ (Editor o = "" -> Forall (fun ev => ~ editing ev) evs).
Proof.
  intros out o'. subst o' out.
  assert (forall o1, o1 = setOutFile (OutFile o1) o1) as Hsame
    by (by intros []).
  pose proof (writePipeline_keeps trigger name pipeline) as Hkeeps.
  destruct (decide (Editor o = "" \/ OutFile o <> "")) as [Hidle | Hbusy].
  - assert (displayPipeline env trigger name pipeline (o, tr)
            = writePipeline env trigger name pipeline (o, tr)) as ->.
    { unfold displayPipeline, bind.
      by rewrite (createOutFile_idle name o tr Hidle). }
    specialize (Hkeeps (o, tr)). cbn [fst] in Hkeeps.
    destruct (decide (OutFile o <> "")) as [Hout | Hout].
    + destruct (writePipeline_saves trigger name pipeline o tr Hout)
        as (evs & Htr & Hprint & Hedit).
      exists evs. split_and!; [done | | done | done | done | done].
      rewrite Hkeeps. apply Hsame.
    + apply dec_stable in Hout.
      destruct Hidle as [Heditor | ?]; [| done].
      assert (exists evs,
                 snd (snd (writePipeline env trigger name pipeline (o, tr)))
                 = tr ++ evs
                 /\ Forall (fun ev => ~ saving ev) evs) as (evs & Htr & Hevs).
      { unfold writePipeline. mrun. rewrite decide_False by (by intros ?).
        destruct (Marshal env pipeline) as [data | e |]; mrun.
        - rewrite <- app_assoc. eexists. split; [done |].
          repeat constructor;
            intros [[[=] | [(? & ? & ? & [=]) | [[? [=]] | [? [=]]]]]
                   | (? & ? & [=])].
        - exists []. by rewrite app_nil_r.
        - exists []. by rewrite app_nil_r. }
      exists evs. split_and!; [done | | done | done | |].
      * rewrite Hkeeps. apply Hsame.
      * intros [? | ?]; done.
      * intros _. eapply Forall_impl; [exact Hevs |].
        intros ev Hev ?. apply Hev. by left.
  - assert (Editor o <> "") as Heditor by (intros H; apply Hbusy; by left).
    assert (OutFile o = "") as Hout.
    { destruct (decide (OutFile o = "")) as [| H]; [done |].
      exfalso. apply Hbusy. by right. }
    destruct (createOutFile_emits name (o, tr)) as (evs1 & Htr1 & Hevs1).
    pose proof (createOutFile_sets name o tr Heditor Hout) as Hsets.
    cbv zeta in Hsets.
    destruct (createOutFile env name (o, tr)) as [res [o1 tr1]] eqn:Hcreate.
    assert (displayPipeline env trigger name pipeline (o, tr)
            = match res with
              | Ok _ => writePipeline env trigger name pipeline (o1, tr1)
              | Fail e => (Fail e, (o1, tr1))
              | Panic => (Panic, (o1, tr1))
              end) as ->.
    { unfold displayPipeline, bind. by rewrite Hcreate. }
    cbn [fst snd] in *. subst tr1.
    destruct Hsets as [(tmp & Htmp & -> & ->) | [Hres ->]].
    + specialize (Hkeeps (setOutFile tmp o, tr ++ evs1)).
      cbn [fst] in Hkeeps.
      destruct (writePipeline_saves trigger name pipeline
                  (setOutFile tmp o) (tr ++ evs1) Htmp)
        as (evs2 & Htr2 & Hprint & _).
      assert (forall o1, o1 = setOutFile tmp o ->
                         o1 = setOutFile (OutFile o1) o) as Hset
        by (by intros ? ->).
      exists (evs1 ++ evs2). split_and!; try done.
      * by rewrite Htr2, app_assoc.
      * by apply Hset.
      * intros _. by apply Forall_app.
    + exists evs1.
      destruct res as [[] | e |]; [done | |]; cbn [fst snd];
        split_and!; try done; by destruct o.
Qed.

(** ** The errors of a run *)

Lemma failsWith_ret {X A} (P : Error -> Prop) (a : A) :
  failsWith P (@ret PipelineRun X A a).
Proof. by intros s e. Qed.

Lemma failsWith_get {X} (P : Error -> Prop) : failsWith P (@get PipelineRun X).
Proof. by intros s e. Qed.

Lemma failsWith_modify {X} (P : Error -> Prop) (f : X -> X) :
  failsWith P (@modify PipelineRun X f).
Proof. by intros s e. Qed.

Lemma failsWith_panic {X A} (P : Error -> Prop) :
  failsWith P (@panic PipelineRun X A).
Proof. by intros s e. Qed.

Lemma failsWith_observe {X A} (P : Error -> Prop)
    (f : @Trace PipelineRun -> A) ev :
  failsWith P (observe (X := X) f ev).
Proof. by intros s e. Qed.

Lemma failsWith_emit {X} (P : Error -> Prop) (ev : @Event PipelineRun) :
  failsWith P (emit (X := X) ev).
Proof. by intros s e. Qed.

Lemma failsWith_fail {X A} (P : Error -> Prop) (e : Error) :
  P e -> failsWith P (@fail PipelineRun X A e).
Proof. intros He s e' [= <-]. done. Qed.

Lemma failsWith_bind {X A B} (P : Error -> Prop)
    (m : @M PipelineRun X A) (k : A -> M X B) :
  failsWith P m -> (forall a, failsWith P (k a)) -> failsWith P (bind m k).
Proof.
  intros Hm Hk s e. unfold bind. specialize (Hm s).
  destruct (m s) as [[a | e1 |] s1]; cbn [fst] in *; [apply Hk | | done].
  intros [= <-]. by apply Hm.
Qed.

Lemma failsWith_wrapf {X A} (P : Error -> Prop) (m : @M PipelineRun X A)
    (msg : string) :
  (forall e, P (ErrWrapf e msg)) -> failsWith P (wrapf m msg).
Proof.
  intros HP s e. unfold wrapf.
  destruct (m s) as [[a | e1 |] s1]; cbn [fst]; [done | | done].
  intros [= <-]. apply HP.
Qed.

Lemma failsWith_try {X A} (P : Error -> Prop) (m : @M PipelineRun X A) :
  failsWith P (try m).
Proof. intros s e. unfold try. by destruct (m s) as [[a | e1 |] s1]. Qed.

Lemma failsWith_forEach {X A} (P : Error -> Prop) (l : list A)
    (body : A -> @M PipelineRun X unit) :
  (forall x, failsWith P (body x)) -> failsWith P (forEach l body).
Proof.
  intros Hbody. induction l as [| x l IH]; intros s e; [done |].
  rewrite forEach_cons. specialize (Hbody x s).
  destruct (body x s) as [[[] | e1 |] s1]; cbn [fst] in *; [apply IH | | done].
  intros [= <-]. by apply Hbody.
Qed.

Lemma failsWith_atTrigger {A} (P : Error -> Prop) (i : nat)
    (m : M (@Trigger PipelineRun PipelineRunSpecT) A) :
  failsWith P m -> failsWith P (atTrigger (UsesResolver := UsesResolver) i m).
Proof.
  intros Hm [o tr] e. unfold atTrigger. cbn [fst snd].
  destruct (Triggers o !! i) as [t |]; [| done].
  specialize (Hm (t, tr)). destruct (m (t, tr)) as [r [t' tr']].
  cbn [fst] in *. apply Hm.
Qed.

Lemma failsWith_mono {X A} (P Q : Error -> Prop) (m : @M PipelineRun X A) :
  (forall e, P e -> Q e) -> failsWith P m -> failsWith Q m.
Proof. intros HPQ Hm s e He. apply HPQ. by apply (Hm s). Qed.

(** Proves [failsWith P m] for a computation made of the above, every
    call to a collaborator being wrapped; [side] proves [P] of the errors
    that are built. *)
Ltac fails side :=
  repeat first
    [ progress cbv zeta
    | apply failsWith_wrapf; solve [side]
    | apply failsWith_bind; [| intros ?]
    | apply failsWith_try
    | apply failsWith_forEach; intros ?
    | apply failsWith_atTrigger
    | apply failsWith_observe
    | apply failsWith_emit
    | apply failsWith_ret
    | apply failsWith_get
    | apply failsWith_modify
    | apply failsWith_fail; solve [side]
    | apply failsWith_panic
    | case_match ].

Ltac described :=
  first [ left; by eexists _, _
        | right; left; reflexivity
        | right; right; by eexists _, _, _ ].

Lemma Validate_described : failsWith described (Validate env).
Proof. unfold Validate. fails ltac:(intros; described). Qed.

Lemma ProcessDir_described (dir : string) :
  failsWith described (ProcessDir env dir).
Proof.
  unfold ProcessDir, processEntry, loadTriggerPipelines.
  fails ltac:(intros; described).
Qed.

Lemma processTriggers_described : failsWith described (processTriggers env).
Proof.
  unfold processTriggers, displayPipeline, createOutFile, writePipeline,
    openInEditor, targetLine, Infof, Print.
  fails ltac:(intros; described).
Qed.

Lemma walk_described (n : FsNode) (path : string) :
  failsWith (fun e => described e \/ e ∈ treeErrors n)
    (walk (lighthouseWalkFn env) path n).
Proof.
  revert path.
  induction n as [name | name entries IH | name e | name e]
    using FsNode_induction; intros path.
  - by intros s e.
  - cbn [walk treeErrors]. apply failsWith_bind.
    + unfold lighthouseWalkFn. cbn [IsDir FileName negb orb].
      case_match; [apply failsWith_ret |].
      eapply failsWith_mono; [| apply ProcessDir_described]. by left.
    + intros _. clear name.
      induction entries as [| c rest IHrest]; [by intros s e |].
      apply Forall_cons in IH as [IHc IH]. specialize (IHrest IH).
      intros s e. rewrite forEach_cons. cbn [flat_map].
      specialize (IHc (Filepath.Join path (nodeName c)) s).
      destruct (walk _ _ c s) as [[[] | e1 |] s1]; cbn [fst] in *.
      * intros He. destruct (IHrest s1 e He) as [? | ?]; [by left |].
        right. apply elem_of_app. by right.
      * intros [= <-]. destruct (IHc e1 eq_refl) as [? | ?]; [by left |].
        right. apply elem_of_app. by left.
      * done.
  - intros s e' [= <-]. right. apply list_elem_of_here.
  - intros s e' [= <-]. right. apply list_elem_of_here.
Qed.

(** X10. Every error of a run has a context: it was built by
    [errors.Wrapf] around the error of a collaborator, or it is the error
    of an empty pick or the invalid option error with the names there
    are.  The one exception is the recursive mode, where an error met by
    the walk of the root directory is returned as it is. *)
Theorem Run_errors_described o tr (e : Error) :
  fst (Run env (o, tr)) = Fail e ->
  described e
  \/ (Recursive o = true
      /\ exists tr1, e ∈ treeErrors (FileTree env tr1 (Dir o))).
Proof.
  pose proof (Validate_stable (o, tr)) as Hstable. revert Hstable.
  unfold Run. unfold bind at 1.
  pose proof (failsWith_wrapf described (Validate env)
                "failed to validate options"
                ltac:(intros; described) (o, tr)) as Hvalid.
  destruct (wrapf (Validate env) _ (o, tr)) as [[[] | e1 |] [o1 tr1]];
    cbn [fst snd] in *; [| | done]; cycle 1.
  { intros _ [= <-]. left. by apply Hvalid. }
  intros [= Hdir Hrec _]. clear Hvalid.
  unfold bind at 1. unfold get at 1. cbn [fst snd].
  unfold bind at 1.
  destruct (Recursive o1) eqn:Hrecursive.
  - unfold Walk. unfold bind at 1. unfold observe at 1. cbn [fst snd].
    pose proof (walk_described (FileTree env tr1 (Dir o1)) (Dir o1)
                  (o1, tr1 ++ [EvWalk (Dir o1)])) as Hwalk.
    destruct (walk _ _ _ _) as [[[] | e2 |] s2]; cbn [fst] in *;
      [| | done].
    + intros He. left. by apply (processTriggers_described s2).
    + intros [= <-]. destruct (Hwalk e2 eq_refl) as [? | Htree]; [by left |].
      right. split; [done |]. exists tr1. by rewrite <- Hdir.
  - pose proof (ProcessDir_described (Filepath.Join (Dir o1) ".lighthouse")
                  (o1, tr1)) as Hscan.
    destruct (ProcessDir _ _ _) as [[[] | e2 |] s2]; cbn [fst] in *;
      [| | done].
    + intros He. left. by apply (processTriggers_described s2).
    + intros [= <-]. left. by apply Hscan.
Qed.

(** ** No panic *)

Lemma unfailing_ret {X A} (I : X -> Prop) (a : A) :
  unfailing I (@ret PipelineRun X A a).
Proof. by intros s Hs. Qed.

Lemma unfailing_get {X} (I : X -> Prop) : unfailing I (@get PipelineRun X).
Proof. by intros s Hs. Qed.

Lemma unfailing_fail {X A} (I : X -> Prop) (e : Error) :
  unfailing I (@fail PipelineRun X A e).
Proof. by intros s Hs. Qed.

Lemma unfailing_observe {X A} (I : X -> Prop)
    (f : @Trace PipelineRun -> A) ev :
  unfailing I (observe (X := X) f ev).
Proof. by intros s Hs. Qed.

Lemma unfailing_emit {X} (I : X -> Prop) (ev : @Event PipelineRun) :
  unfailing I (emit (X := X) ev).
Proof. by intros s Hs. Qed.

Lemma unfailing_modify {X} (I : X -> Prop) (f : X -> X) :
  (forall x, I x -> I (f x)) -> unfailing I (@modify PipelineRun X f).
Proof. intros Hf s Hs. split; [done | by apply Hf]. Qed.

Lemma unfailing_ask {X A} (I : X -> Prop)
    (f : @Trace PipelineRun -> Outcome A) ev :
  (forall tr, f tr <> Panic) -> unfailing I (ask (X := X) f ev).
Proof. intros Hf s Hs. split; [apply Hf | done]. Qed.

Lemma unfailing_bind {X A B} (I : X -> Prop)
    (m : @M PipelineRun X A) (k : A -> M X B) :
  unfailing I m -> (forall a, unfailing I (k a)) -> unfailing I (bind m k).
Proof.
  intros Hm Hk s Hs. unfold bind. destruct (Hm s Hs) as [Hres Hs1].
  destruct (m s) as [[a | e |] s1]; cbn [fst snd] in *; [by apply Hk | done ..].
Qed.

Lemma unfailing_get_bind {X B} (I : X -> Prop) (k : X -> @M PipelineRun X B) :
  (forall x, I x -> unfailing I (k x)) -> unfailing I (x <- get ;; k x).
Proof. intros Hk s Hs. unfold bind, get. by apply Hk. Qed.

Lemma unfailing_wrapf {X A} (I : X -> Prop) (m : @M PipelineRun X A)
    (msg : string) :
  unfailing I m -> unfailing I (wrapf m msg).
Proof.
  intros Hm s Hs. unfold wrapf. destruct (Hm s Hs) as [Hres Hs1].
  by destruct (m s) as [[a | e |] s1].
Qed.

Lemma unfailing_try {X A} (I : X -> Prop) (m : @M PipelineRun X A) :
  unfailing I m -> unfailing I (try m).
Proof.
  intros Hm s Hs. unfold try. destruct (Hm s Hs) as [Hres Hs1].
  by destruct (m s) as [[a | e |] s1].
Qed.

Lemma unfailing_forEach {X A} (I : X -> Prop) (l : list A)
    (body : A -> @M PipelineRun X unit) :
  (forall x, x ∈ l -> unfailing I (body x)) -> unfailing I (forEach l body).
Proof.
  induction l as [| x l IH]; intros Hbody s Hs; [done |].
  rewrite forEach_cons.
  destruct (Hbody x ltac:(left) s Hs) as [Hres Hs1].
  destruct (body x s) as [[[] | e |] s1]; cbn [fst snd] in *; [| done ..].
  apply IH; [| done]. intros y Hy. apply Hbody. by right.
Qed.

(** Proves [unfailing I m] for a computation made of the above; [leaf]
    deals with the calls and with what is known of [m] already. *)
Ltac calm leaf :=
  repeat first
    [ solve [leaf]
    | progress cbv zeta
    | apply unfailing_get_bind; intros ? ?
    | apply unfailing_bind; [| intros ?]
    | apply unfailing_wrapf
    | apply unfailing_try
    | apply unfailing_observe
    | apply unfailing_emit
    | apply unfailing_ret
    | apply unfailing_get
    | apply unfailing_fail
    | case_match ].

Lemma ready_setTriggers o (ts : list Trigger) :
  ready o -> ready (setTriggers ts o).
Proof. done. Qed.

Lemma ready_setOutFile o (f : string) : ready o -> ready (setOutFile f o).
Proof. done. Qed.

Lemma prefixAndSuffix_returns (pattern : string) :
  Os.prefixAndSuffix pattern <> Panic.
Proof. unfold Os.prefixAndSuffix. by repeat case_match. Qed.

Section Quiet.

Hypothesis Hquiet : quietEnv env.

Lemma PickNameWithDefault_unfailing (names : list string)
    (message defaultValue help : string) :
  unfailing (X := @Options PipelineRun PipelineRunSpecT UsesResolver) ready
    (PickNameWithDefault names message defaultValue help).
Proof.
  intros [o tr] Hready. pose proof Hready as [(pick & Hpick & Hq) _].
  cbn [fst] in *. unfold PickNameWithDefault. mrun. rewrite Hpick. mrun.
  split; [apply Hq | done].
Qed.

Lemma runCommand_unfailing (c : Command) :
  unfailing (X := @Options PipelineRun PipelineRunSpecT UsesResolver) ready
    (runCommand c).
Proof.
  intros [o tr] Hready. pose proof Hready as [_ (run & Hrun & Hq)].
  cbn [fst] in *. unfold runCommand. mrun. rewrite Hrun. mrun.
  split; [apply Hq | done].
Qed.

Lemma TempFile_unfailing {X} (I : X -> Prop) (dir pattern : string) :
  unfailing I (TempFile env dir pattern).
Proof.
  destruct Hquiet as (_ & _ & _ & _ & _ & _ & _ & _ & _ & Htemp & _).
  unfold TempFile. pose proof (prefixAndSuffix_returns pattern).
  calm ltac:(first [done | apply unfailing_ask; intros ?; apply Htemp]).
Qed.

Lemma Abs_unfailing {X} (I : X -> Prop) (path : string) :
  unfailing I (Abs env path).
Proof.
  destruct Hquiet as (_ & _ & _ & _ & _ & _ & _ & _ & Hgetwd & _).
  unfold Abs. calm ltac:(apply unfailing_ask; apply Hgetwd).
Qed.

Lemma openInEditor_unfailing (path editor : string) :
  unfailing ready (openInEditor env path editor).
Proof.
  destruct Hquiet as (_ & _ & _ & _ & _ & _ & _ & _ & _ & _ & _ & _ & Hread).
  unfold openInEditor, targetLine, findFirstStepLine, Infof.
  calm ltac:(first [ apply runCommand_unfailing
                   | apply unfailing_ask; intros ?; apply Hread ]).
Qed.

Lemma displayPipeline_unfailing (trigger : Trigger) (name : string)
    (pipeline : PipelineRun) :
  unfailing ready (displayPipeline env trigger name pipeline).
Proof.
  destruct Hquiet
    as (_ & _ & _ & _ & _ & _ & _ & _ & _ & _ & Hsave & Hmarshal & _).
  pose proof (Hmarshal pipeline).
  unfold displayPipeline, createOutFile, writePipeline, Infof, Print.
  calm ltac:(first [ done
                   | apply openInEditor_unfailing
                   | apply TempFile_unfailing
                   | apply Abs_unfailing
                   | apply unfailing_modify; intros ?; apply ready_setOutFile
                   | apply unfailing_ask; intros ?; apply Hsave ]).
Qed.

Lemma processTriggers_unfailing : unfailing ready (processTriggers env).
Proof.
  unfold processTriggers.
  calm ltac:(first [ apply displayPipeline_unfailing
                   | apply PickNameWithDefault_unfailing ]).
Qed.

(** The loops of [loadTriggerPipelines] stay within the job specs. *)
Lemma loadTriggerPipelines_returns o (dir : string) t tr :
  fst (loadTriggerPipelines env o dir (t, tr)) <> Panic.
Proof.
  destruct Hquiet as (_ & _ & _ & _ & _ & _ & _ & Hload & _).
  set (n := length (Presubmits (Spec (Config t)))).
  set (m := length (Postsubmits (Spec (Config t)))).
  pose (I := fun t1 : @Trigger PipelineRun PipelineRunSpecT =>
               length (Presubmits (Spec (Config t1))) = n
               /\ length (Postsubmits (Spec (Config t1))) = m).
  assert (unfailing I (loadTriggerPipelines env o dir)) as Hcalm.
  { unfold loadTriggerPipelines.
    apply unfailing_get_bind. intros t1 [Hn Hm]. rewrite Hn, Hm.
    apply unfailing_bind; [| intros _; apply unfailing_bind;
                                        [| intros _; apply unfailing_ret]].
    - apply unfailing_forEach. intros i Hi [t2 tr2] [Hn2 Hm2].
      cbn [fst] in *.
      apply elem_of_seq in Hi as [_ Hi]. rewrite <- Hn2 in Hi.
      apply lookup_lt_is_Some_2 in Hi as [r Hr].
      rewrite (loadPresubmit_step _ _ _ _ _ _ Hr).
      destruct (decide (SourcePath r <> ""));
        [pose proof (Hload tr2 (Resolver o)
                       (Filepath.Join dir (SourcePath r)));
         destruct (LoadEffectivePipelineRun _ _ _ _) |];
        cbn [fst snd]; try done;
        (split; [done |]); split; cbn; by rewrite ?length_insert.
    - apply unfailing_forEach. intros i Hi [t2 tr2] [Hn2 Hm2].
      cbn [fst] in *.
      apply elem_of_seq in Hi as [_ Hi]. rewrite <- Hm2 in Hi.
      apply lookup_lt_is_Some_2 in Hi as [r Hr].
      rewrite (loadPostsubmit_step _ _ _ _ _ _ Hr).
      destruct (decide (SourcePath r <> ""));
        [pose proof (Hload tr2 (Resolver o)
                       (Filepath.Join dir (SourcePath r)));
         destruct (LoadEffectivePipelineRun _ _ _ _) |];
        cbn [fst snd]; try done;
        (split; [done |]); split; cbn; by rewrite ?length_insert. }
  by apply (Hcalm (t, tr)).
Qed.

Lemma processEntry_unfailing (dir : string) (f : FileInfo) :
  unfailing ready (processEntry env dir f).
Proof.
  destruct Hquiet as (_ & _ & _ & _ & _ & Hexists & Hloadfile & _).
  intros [o tr] Hready. cbn [fst] in Hready. unfold processEntry.
  destruct (negb (IsDir f) || Strings.HasPrefix (FileName f) ".");
    [done |].
  mrun.
  pose proof (Hexists tr (triggersFileOf dir f)) as Hcheck.
  unfold triggersFileOf in Hcheck.
  destruct (FileExists env tr _) as [[|] | e |]; cbn [negb fst snd];
    [| done ..].
  match goal with
  | |- context [LoadFile env ?tr1 ?path] =>
      pose proof (Hloadfile tr1 path) as Hparse;
      destruct (LoadFile env tr1 path) as [c | e |]
  end; cbn [fst snd]; [| done ..].
  unfold atTrigger. cbn [fst snd appendTrigger setTriggers Triggers].
  rewrite lookup_app_r, Nat.sub_diag by done. cbn [lookup list_lookup].
  match goal with
  | |- context [loadTriggerPipelines env ?o1 ?d ?s1] =>
      pose proof (loadTriggerPipelines_returns o1 d (fst s1) (snd s1))
        as Hload;
      cbn [fst snd] in Hload;
      destruct (loadTriggerPipelines env o1 d s1) as [res [t' tr']]
  end.
  cbn [fst snd] in *. by destruct res.
Qed.

Lemma ProcessDir_unfailing (dir : string) :
  unfailing ready (ProcessDir env dir).
Proof.
  destruct Hquiet as (_ & _ & _ & _ & Hreaddir & _).
  unfold ProcessDir.
  calm ltac:(first [ apply unfailing_ask; intros ?; apply Hreaddir
                   | apply unfailing_forEach; intros ? _;
                     apply processEntry_unfailing ]).
Qed.

Lemma walk_unfailing (n : FsNode) (path : string) :
  unfailing ready (walk (lighthouseWalkFn env) path n).
Proof.
  revert path.
  induction n as [name | name entries IH | name e | name e]
    using FsNode_induction; intros path; [done | | done ..].
  cbn [walk]. apply unfailing_bind.
  - unfold lighthouseWalkFn.
    calm ltac:(apply ProcessDir_unfailing).
  - intros _. apply unfailing_forEach. intros c Hc.
    rewrite Forall_forall in IH. by apply IH.
Qed.

(** [Validate] does not panic and, when it succeeds, leaves a picker and
    a command runner that do not either. *)
Lemma Validate_ready o tr :
  quietOptions o ->
  fst (Validate env (o, tr)) <> Panic
  /\ (fst (Validate env (o, tr)) = Ok tt ->
      ready (fst (snd (Validate env (o, tr))))).
Proof.
  destruct Hquiet as (Hbase & Hinput & Hresolver & Hrunner & _).
  intros [Hpick Hrun]. unfold Validate, ready. mrun.
  repeat (case_match; mrun;
          try done;
          try (exfalso; eapply Hbase; eassumption);
          try (exfalso; eapply Hresolver; eassumption)).
  all: simplify_eq/=.
  all: split; [done | intros _].
  all: destruct (Input o) as [pick |] eqn:Hi; try done.
  all: destruct (CommandRunner o) as [run |] eqn:Hc; try done.
  all: split; eexists; (split; [reflexivity |]);
    first [by apply Hpick | by apply Hrun | apply Hinput | apply Hrunner].
Qed.

(** X11. A run does not panic, as long as its collaborators do not:
    [Validate] supplies the picker and the command runner that are
    missing before they are called, the loops over the job specs stay
    within them, the trigger a load works on is the one just recorded,
    and the pattern of the temporary file is one [os.CreateTemp] takes.
    (The triggers the options start with are proper ones.) *)
Theorem Run_never_panics o tr :
  quietOptions o -> fst (Run env (o, tr)) <> Panic.
Proof.
  intros Hoptions. destruct (Validate_ready o tr Hoptions) as [Hcalm Hready].
  unfold Run. unfold bind at 1. unfold wrapf.
  destruct (Validate env (o, tr)) as [[[] | e |] [o1 tr1]];
    cbn [fst snd] in *; [| done ..].
  specialize (Hready eq_refl).
  assert (unfailing ready
            (o <- get ;;
             (if Recursive o then Walk env (Dir o) (lighthouseWalkFn env)
              else ProcessDir env (Filepath.Join (Dir o) ".lighthouse")) ;;
             processTriggers env)) as Hrest.
  { unfold Walk.
    calm ltac:(first [ apply walk_unfailing
                     | apply ProcessDir_unfailing
                     | apply processTriggers_unfailing ]). }
  by apply (Hrest (o1, tr1)).
Qed.

End Quiet.

(** ** The names and the pipelines of the triggers recorded *)

Lemma ProcessDir_keysAgree (dir : string)
    (s : Options * @Trace PipelineRun) :
  Forall keysAgree (Triggers (fst s)) ->
  Forall keysAgree (Triggers (fst (snd (ProcessDir env dir s)))).
Proof.
  destruct s as [o tr]. cbn [fst]. intros Hkeys. unfold ProcessDir. mrun.
  destruct (ReadDir env tr dir) as [fs | e |]; cbn [fst snd]; [| done ..].
  destruct (forEach_processEntry_appends dir fs o (tr ++ [EvReadDir dir]))
    as (new & Hnew & _ & Hnewkeys).
  destruct (forEach fs _ _) as [[[] | |] s1]; cbn [fst snd] in *;
    rewrite Hnew; by apply Forall_app.
Qed.

Lemma walk_invariant (I : Options -> Prop) :
  (forall dir s, I (fst s) -> I (fst (snd (ProcessDir env dir s)))) ->
  forall (n : FsNode) (path : string) (s : Options * @Trace PipelineRun),
    I (fst s) -> I (fst (snd (walk (lighthouseWalkFn env) path n s))).
Proof.
  intros Hscan.
  induction n as [name | name entries IH | name e | name e]
    using FsNode_induction; intros path s Hs; [done | | done ..].
  cbn [walk]. unfold bind.
  assert (I (fst (snd (lighthouseWalkFn env path
                         (Some {| FileName := name; IsDir := true |})
                         None s)))) as Hs1.
  { unfold lighthouseWalkFn. cbn [IsDir FileName negb orb].
    case_match; [done | by apply Hscan]. }
  destruct (lighthouseWalkFn env path _ None s) as [[[] | e |] s1];
    cbn [fst snd] in *; [| done ..].
  clear Hs s. revert s1 Hs1.
  induction entries as [| c rest IHrest]; intros s Hs; [done |].
  apply Forall_cons in IH as [IHc IH]. rewrite forEach_cons.
  specialize (IHc (Filepath.Join path (nodeName c)) s Hs).
  destruct (walk _ _ c s) as [[[] | e |] s1]; cbn [fst snd] in *;
    [by apply IHrest | done ..].
Qed.

(** X12. The job names of a trigger and its pipelines stay in step through
    the discovery: when the names of every trigger are exactly the keys of
    its pipelines before a directory is scanned, or a tree is walked, they
    are so after, also when a load has failed half way.  A name picked
    from the names of a trigger is therefore always a key of its
    pipelines. *)
Theorem names_are_pipeline_keys o tr :
  Forall keysAgree (Triggers o) ->
  (forall dir : string,
      Forall keysAgree (Triggers (fst (snd (ProcessDir env dir (o, tr))))))
  /\ (forall (n : FsNode) (path : string),
        Forall keysAgree
          (Triggers (fst (snd (walk (lighthouseWalkFn env) path n
                                 (o, tr)))))).
Proof.
  intros Hkeys. split.
  - intros dir. by apply (ProcessDir_keysAgree dir (o, tr)).
  - intros n path.
    by apply (walk_invariant (fun o => Forall keysAgree (Triggers o))
                ProcessDir_keysAgree n path (o, tr)).
Qed.

(** ** The errors of a scan *)



(** ** The editor and a file that cannot be read *)

(** X14. With an output file and an editor but no [--line], when the file
    that was just saved cannot be read back the editor is not started:
    the pipeline stays saved, and [displayPipeline] returns the error of
    the read, wrapped twice. *)
Theorem unreadable_file_stops_editor (trigger : Trigger) (name : string)
    (pipeline : PipelineRun) o tr (e : Error) :
  OutFile o <> "" -> Editor o <> "" -> Line o = "" ->
  let saved :=
    tr ++ [EvSaveFile pipeline (OutFile o);
           EvInfof ("saved file " +:+ ColorInfo env (OutFile o))] in
  SaveFile env tr pipeline (OutFile o) = Ok tt ->
  ReadFile env saved (OutFile o) = Fail e ->
  displayPipeline env trigger name pipeline (o, tr)
  = (Fail (ErrWrapf
             (ErrWrapf e ("failed to load pipeline file " +:+ OutFile o))
             "failed to "),
     (o, saved ++ [EvReadFile (OutFile o)])).
Proof.
  intros Hout Heditor Hline saved Hsave Hread.
  unfold displayPipeline. unfold bind at 1.
  rewrite createOutFile_idle by (by right).
  unfold writePipeline, openInEditor, targetLine, findFirstStepLine.
  mrun. rewrite decide_True by done. mrun. rewrite Hsave.
  rewrite decide_True by done. mrun. rewrite decide_True by done. mrun.
  rewrite <- app_assoc. cbn [app]. fold saved. by rewrite Hread.
Qed.

(** ** What a run leaves alone *)

Lemma keeps_try {X A} (m : @M PipelineRun X A) : keeps m -> keeps (try m).
Proof.
  intros Hm s. unfold try. specialize (Hm s).
  by destruct (m s) as [[a | e |] s1].
Qed.

Lemma TempFile_keeps {X} (dir pattern : string) :
  keeps (X := X) (TempFile env dir pattern).
Proof. unfold TempFile. keeps. Qed.

Lemma processTriggers_stable :
  stable (fun o => (flags o, Triggers o)) (processTriggers env).
Proof.
  unfold processTriggers, PickNameWithDefault, displayPipeline,
    createOutFile.
  repeat first
    [ apply stable_keeps;
      first [ apply writePipeline_keeps | apply TempFile_keeps
            | apply keeps_try, Abs_keeps ]
    | progress cbv zeta
    | apply stable_bind; [| intros ?]
    | apply stable_wrapf
    | apply stable_modify; intros ?; reflexivity
    | apply stable_keeps;
      first [ apply keeps_ask | apply keeps_ret | apply keeps_get
            | apply keeps_fail | apply keeps_panic ]
    | case_match ].
Qed.

Lemma Validate_flags :
  stable (fun o => (flags o, Triggers o))
    (wrapf (Validate env) "failed to validate options").
Proof. unfold Validate. stable. Qed.

Lemma ProcessDir_grows (dir : string) o
    (s : Options * @Trace PipelineRun) :
  flags (fst s) = flags o /\ Triggers o `prefix_of` Triggers (fst s) ->
  flags (fst (snd (ProcessDir env dir s))) = flags o
  /\ Triggers o `prefix_of` Triggers (fst (snd (ProcessDir env dir s))).
Proof.
  destruct s as [o1 tr]. cbn [fst]. intros [Hflags Hprefix].
  assert (forall new,
             flags (setTriggers (Triggers o1 ++ new) o1) = flags o
             /\ Triggers o
                `prefix_of` Triggers (setTriggers (Triggers o1 ++ new) o1))
    as Hnew.
  { intros new. split; [done |]. cbn. by apply prefix_app_r. }
  unfold ProcessDir. mrun.
  destruct (ReadDir env tr dir) as [fs | e |]; cbn [fst snd]; [| done ..].
  destruct (forEach_processEntry_appends dir fs o1 (tr ++ [EvReadDir dir]))
    as (new & Heq & _).
  destruct (forEach fs _ _) as [[[] | |] s1]; cbn [fst snd] in *;
    rewrite Heq; apply Hnew.
Qed.

(** X15. A run leaves alone what the command line told it: the root
    directory, the namespace, the names of the trigger and of the
    pipeline, the line and the recursive flag are after the run what they
    were before, whatever the outcome; and it forgets no trigger: those
    the options started with are still there, in front. *)
Theorem Run_keeps_flags o tr :
  let o' := fst (snd (Run env (o, tr))) in
  flags o' = flags o /\ Triggers o `prefix_of` Triggers o'.
Proof.
  intros o'. subst o'.
  set (Kept := fun o1 : @Options PipelineRun PipelineRunSpecT UsesResolver =>
                 flags o1 = flags o /\ Triggers o `prefix_of` Triggers o1).
  change (Kept (fst (snd (Run env (o, tr))))).
  assert (forall s : Options * @Trace PipelineRun,
             Kept (fst s) -> Kept (fst (snd (processTriggers env s))))
    as Hselect.
  { intros s [Hflags Hprefix]. pose proof (processTriggers_stable s) as Heq.
    split.
    - exact (eq_trans (f_equal fst Heq) Hflags).
    - exact (eq_ind_r (fun ts => Triggers o `prefix_of` ts) Hprefix
               (f_equal snd Heq)). }
  assert (forall dir s, Kept (fst s) ->
                        Kept (fst (snd (ProcessDir env dir s)))) as Hscan
    by (intros dir s; apply ProcessDir_grows).
  pose proof (walk_invariant Kept Hscan) as Hwalk.
  assert (Kept (fst (snd (wrapf (Validate env) "failed to validate options"
                            (o, tr))))) as Hvalid.
  { pose proof (Validate_flags (o, tr)) as Heq. split.
    - exact (f_equal fst Heq).
    - exact (eq_ind_r (fun ts => Triggers o `prefix_of` ts) (reflexivity _)
               (f_equal snd Heq)). }
  clearbody Kept.
  unfold Run. unfold bind at 1.
  destruct (wrapf (Validate env) _ (o, tr)) as [[[] | e |] [o1 tr1]];
    cbn [fst snd] in *; [| done ..].
  unfold bind at 1. unfold get at 1. cbn [fst snd]. unfold bind at 1.
  destruct (Recursive o1).
  - unfold Walk. unfold bind at 1. unfold observe at 1. cbn [fst snd].
    specialize (Hwalk (FileTree env tr1 (Dir o1)) (Dir o1)
                  (o1, tr1 ++ [EvWalk (Dir o1)]) Hvalid).
    destruct (walk _ _ _ _) as [[[] | e |] s2]; cbn [fst snd] in *;
      [by apply Hselect | done ..].
  - specialize (Hscan (Filepath.Join (Dir o1) ".lighthouse") (o1, tr1)
                  Hvalid).
    destruct (ProcessDir _ _ _) as [[[] | e |] s2]; cbn [fst snd] in *;
      [by apply Hselect | done ..].
Qed.

End Properties.

(** * The properties at work in the small world *)

Lemma empty_source_path_skipped_witness :
  NoDup (Name <$> Presubmits (Spec Example.config))
  /\ ("presubmit/lint"
      ∉ Names (fst (snd (loadTriggerPipelines Example.world Example.quiet
                           ".lighthouse/pr" (Example.trigger, []))))).
Proof.
  assert (NoDup (Name <$> Presubmits (Spec Example.config))) as Hpre
    by (apply (bool_decide_unpack _); vm_compute; exact I).
  split; [exact Hpre |].
  refine (proj1 (proj1 (proj2 (proj2 (proj2
            (empty_source_path_skipped Example.world Example.quiet
               ".lighthouse/pr" ".lighthouse/pr/triggers.yaml"
               Example.config [])))
            (Example.job "lint" "" "" (Some tt)) eq_refl) Hpre _)).
  vm_compute. apply list_elem_of_further, list_elem_of_here.
Defined.

Lemma job_names_ordered_witness :
  Names (fst (snd (loadTriggerPipelines Example.world Example.quiet
                     ".lighthouse/pr" (Example.trigger, []))))
  = ["presubmit/pr"; "postsubmit/release"].
Proof.
  refine (proj2 (job_names_ordered Example.world Example.quiet
                   ".lighthouse/pr" ".lighthouse/pr/triggers.yaml"
                   Example.config []) _).
  vm_compute. reflexivity.
Defined.

Lemma editor_target_line_witness :
  Strings.Split Example.pipelineYaml (bytes [10]) !! 9%nat
  = Some "        steps:"
  /\ targetLine Example.world "out.yaml" (Example.withEditor "code" "", [])
     = (Ok "11", (Example.withEditor "code" "", [EvReadFile "out.yaml"])).
Proof.
  split; [vm_compute; reflexivity |].
  refine (proj1 (proj2 (editor_target_line Example.world
                          (Example.withEditor "code" "") [] "out.yaml")
                   eq_refl Example.pipelineYaml eq_refl)
            9%nat "        steps:" _ _ _ _).
  - vm_compute. reflexivity.
  - vm_compute. reflexivity.
  - intros j l Hj.
    do 9 (destruct j as [| j]; [intros [= <-]; vm_compute; discriminate |]).
    lia.
  - vm_compute. reflexivity.
Defined.

Lemma editor_arguments_witness :
  exists args,
    args = ["-g"; "out.yaml:11"]
    /\ openInEditor Example.world "out.yaml" "code"
         (Example.withEditor "code" "", [])
       = (Ok tt,
          (Example.withEditor "code" "",
           [EvReadFile "out.yaml";
            EvCommand {| CmdName := "code"; Args := args |}])).
Proof.
  destruct (editor_arguments Example.world (Example.withEditor "code" "") []
              "out.yaml" "code" "11" (Example.withEditor "code" "")
              [EvReadFile "out.yaml"] Example.runner
              ltac:(vm_compute; reflexivity) eq_refl)
    as (args & _ & Hcode & _ & Hrun).
  exists args. split; [exact (Hcode eq_refl) |]. exact Hrun.
Defined.

Lemma missing_triggers_file_skipped_witness :
  processEntry Example.world ".lighthouse"
    {| FileName := "empty"; IsDir := true |} (Example.quiet, [])
  = (Ok tt,
     (Example.quiet, [EvFileExists ".lighthouse/empty/triggers.yaml"]))
  /\ ProcessDir Example.bare ".lighthouse" (Example.quiet, [])
     = (Ok tt,
        (Example.quiet,
         [EvReadDir ".lighthouse";
          EvFileExists ".lighthouse/empty/triggers.yaml";
          EvFileExists ".lighthouse/pr/triggers.yaml"])).
Proof.
  split.
  - exact (proj1 (proj2 (missing_triggers_file_skipped Example.world
                           ".lighthouse" Example.quiet []))
             {| FileName := "empty"; IsDir := true |} eq_refl eq_refl eq_refl).
  - refine (proj2 (proj2 (missing_triggers_file_skipped Example.bare
                            ".lighthouse" Example.quiet []))
              _ eq_refl _).
    intros f Hf. right. right. reflexivity.
Defined.

Lemma unknown_trigger_rejected_witness :
  processTriggers Example.world
    (Example.scanned (Example.options "." false "nope" "" "" "" None), [])
  = (Fail (ErrInvalidOption "trigger" "nope"
             "available names .lighthouse/pr/triggers.yaml"),
     (Example.scanned (Example.options "." false "nope" "" "" "" None), [])).
Proof.
  refine (unknown_trigger_rejected Example.world
            (Example.scanned (Example.options "." false "nope" "" "" "" None))
            [] _ _).
  - vm_compute. discriminate.
  - intros t Ht. vm_compute in Ht.
    apply list_elem_of_singleton in Ht. subst t. vm_compute. discriminate.
Defined.

Lemma empty_pick_rejected_witness :
  processTriggers Example.world
    (Example.scanned (Example.options "." false "" "" "" ""
                        (Some Example.cancelled)), [])
  = (Fail (ErrErrorf "no trigger file selected"),
     (Example.scanned (Example.options "." false "" "" "" ""
                         (Some Example.cancelled)),
      [EvPickNameWithDefault [".lighthouse/pr/triggers.yaml"]
         "pick the trigger config: " ""
         "select the set of triggers to process"]))
  /\ (exists s,
        processTriggers Example.world
          (Example.scanned
             (Example.options "." false ".lighthouse/pr/triggers.yaml" ""
                "" "" (Some Example.cancelled)), [])
        = (Fail (ErrErrorf "no trigger file selected"), s)).
Proof.
  split.
  - exact (proj1 (empty_pick_rejected Example.world
                    (Example.scanned (Example.options "." false "" "" "" ""
                                        (Some Example.cancelled)))
                    [] Example.cancelled eq_refl) eq_refl eq_refl).
  - eexists.
    eapply (proj2 (empty_pick_rejected Example.world
                     (Example.scanned
                        (Example.options "." false
                           ".lighthouse/pr/triggers.yaml" "" "" ""
                           (Some Example.cancelled)))
                     [] Example.cancelled eq_refl)
              ".lighthouse/pr/triggers.yaml" []).
    + left. split_and!; [vm_compute; discriminate | reflexivity ..].
    + vm_compute. reflexivity.
    + reflexivity.
    + reflexivity.
Defined.

Lemma temp_file_name_witness :
  OutFile (fst (snd (displayPipeline Example.world Example.trigger
                       "presubmit/pr" Example.pipelineYaml
                       (Example.withEditor "code" "", []))))
  = "/tmp/repo-presubmit-pr-123456789.yaml".
Proof.
  refine (temp_file_name Example.world (Example.withEditor "code" "") []
            Example.trigger "presubmit/pr" Example.pipelineYaml
            _ eq_refl _ "123456789" eq_refl).
  - vm_compute. discriminate.
  - vm_compute. discriminate.
Defined.

Lemma agent_defaulted_witness :
  exists r',
    Presubmits (Spec (Config (fst (snd (loadTriggerPipelines Example.world
                                          Example.quiet ".lighthouse/pr"
                                          (Example.trigger, []))))))
      !! 1%nat = Some r'
    /\ Agent r' = "tekton-pipeline".
Proof.
  destruct (proj1 (proj2 (proj2
              (agent_defaulted Example.world Example.quiet ".lighthouse/pr"
                 ".lighthouse/pr/triggers.yaml" Example.config []))
              1%nat (Example.job "lint" "" "" (Some tt))) eq_refl)
    as (r' & Hr' & _ & _ & _ & _ & Hagent).
  exists r'. split; [exact Hr' |].
  apply Hagent; [vm_compute; reflexivity | reflexivity | discriminate].
Defined.

Lemma lighthouse_absent_witness :
  fst (Run (Example.env Example.plainTree)
         (Example.options "." true "" "" "" "" None, []))
  = Fail (ErrErrorf "no trigger file selected")
  /\ fst (Run Example.world
            (Example.options "missing" false "" "" "" "" None, []))
     = Fail (ErrWrapf
               (ErrExternal
                  "open missing/.lighthouse: no such file or directory")
               "failed to read dir missing/.lighthouse").
Proof.
  split.
  - pose proof (lighthouse_absent (Example.env Example.plainTree)
                  (Example.options "." true "" "" "" "" None) []
                  (fst (snd (wrapf (Validate (Example.env Example.plainTree))
                               "failed to validate options"
                               (Example.options "." true "" "" "" "" None, []))))
                  (snd (snd (wrapf (Validate (Example.env Example.plainTree))
                               "failed to validate options"
                               (Example.options "." true "" "" "" "" None, []))))
                  ltac:(vm_compute; reflexivity)) as [Hrec _].
    destruct (Hrec eq_refl eq_refl) as (_ & _ & Hrun).
    refine (eq_trans (f_equal fst (Hrun eq_refl)) _). vm_compute. reflexivity.
  - pose proof (lighthouse_absent Example.world
                  (Example.options "missing" false "" "" "" "" None) []
                  (fst (snd (wrapf (Validate Example.world)
                               "failed to validate options"
                               (Example.options "missing" false "" "" "" ""
                                  None, []))))
                  (snd (snd (wrapf (Validate Example.world)
                               "failed to validate options"
                               (Example.options "missing" false "" "" "" ""
                                  None, []))))
                  ltac:(vm_compute; reflexivity)) as [_ Hnonrec].
    exact (f_equal fst (Hnonrec eq_refl _ eq_refl)).
Defined.

Lemma Validate_fills_missing_witness :
  is_Some (Input (fst (snd (Validate Example.world (Example.quiet, [])))))
  /\ is_Some (CommandRunner
                (fst (snd (Validate Example.world (Example.quiet, []))))).
Proof.
  destruct (Validate_fills_missing Example.world Example.quiet []
              ltac:(vm_compute; reflexivity)) as (Hinput & Hrunner & _).
  exact (conj Hinput Hrunner).
Defined.

Lemma Run_stops_at_validation_witness :
  fst (Run Example.locked (Example.quiet, []))
  = Fail (ErrWrapf
            (ErrWrapf (ErrExternal "no kubeconfig")
               "failed to validate base options")
            "failed to validate options").
Proof.
  exact (f_equal fst
           (proj1 (Run_stops_at_validation Example.locked Example.quiet []
                     (ErrWrapf (ErrExternal "no kubeconfig")
                        "failed to validate base options")
                     eq_refl))).
Defined.

Lemma load_failure_names_path_witness :
  exists r e,
    (r ∈ Presubmits (Spec Example.config)
     \/ r ∈ Postsubmits (Spec Example.config))
    /\ fst (loadTriggerPipelines Example.world Example.quiet "elsewhere"
              (Example.trigger, []))
       = Fail (ErrWrapf e ("failed to load "
                           +:+ Filepath.Join "elsewhere" (SourcePath r))).
Proof.
  assert (fst (loadTriggerPipelines Example.world Example.quiet "elsewhere"
                 (Example.trigger, []))
          = Fail (ErrWrapf
                    (ErrExternal
                       "open elsewhere/pipeline.yaml: no such file or directory")
                    "failed to load elsewhere/pipeline.yaml")) as Hfail
    by (vm_compute; reflexivity).
  destruct (load_failure_names_path Example.world Example.quiet "elsewhere"
              Example.trigger [] _ Hfail)
    as (r & e & tr0 & Hin & _ & _ & Herr & _).
  exists r, e. split; [exact Hin |].
  exact (eq_trans Hfail (f_equal Fail Herr)).
Defined.

Lemma walk_scans_lighthouse_dirs_witness :
  walk (lighthouseWalkFn Example.world) "." Example.tree (Example.quiet, [])
  = forEach [".lighthouse"] (ProcessDir Example.world) (Example.quiet, []).
Proof.
  exact (walk_scans_lighthouse_dirs Example.world Example.tree "."
           (Example.quiet, []) eq_refl).
Defined.

Lemma unknown_pipeline_rejected_witness :
  fst (processTriggers Example.world
         (Example.named ".lighthouse/pr/triggers.yaml" "presubmit/nope", []))
  = Fail (ErrInvalidOption "pipeline" "presubmit/nope"
            "available names presubmit/pr, postsubmit/release").
Proof.
  pose (o := Example.named ".lighthouse/pr/triggers.yaml" "presubmit/nope").
  pose (t := default Example.trigger (last (Triggers o))).
  refine (eq_trans
            (f_equal fst
               (proj1 (unknown_pipeline_rejected Example.world o [] t _ _)
                  _ _)) _).
  - vm_compute. discriminate.
  - vm_compute. reflexivity.
  - vm_compute. discriminate.
  - left. vm_compute. reflexivity.
  - vm_compute. reflexivity.
Defined.

Lemma Run_errors_described_witness :
  described
    (ErrWrapf
       (ErrExternal "open missing/.lighthouse: no such file or directory")
       "failed to read dir missing/.lighthouse")
  \/ (Recursive (Example.options "missing" false "" "" "" "" None) = true
      /\ exists tr1,
           ErrWrapf
             (ErrExternal
                "open missing/.lighthouse: no such file or directory")
             "failed to read dir missing/.lighthouse"
           ∈ treeErrors (FileTree Example.world tr1 "missing")).
Proof.
  exact (Run_errors_described Example.world
           (Example.options "missing" false "" "" "" "" None) [] _
           ltac:(vm_compute; reflexivity)).
Defined.

Lemma Example_world_quiet : quietEnv Example.world.
Proof.
  unfold quietEnv, quietPicker, quietRunner. cbn.
  split_and!; intros; try done; by case_decide.
Qed.

Lemma Run_never_panics_witness :
  fst (Run Example.world (Example.quiet, [])) <> Panic.
Proof.
  refine (Run_never_panics Example.world Example_world_quiet
            Example.quiet [] _).
  split; intros ? [=].
Defined.

Lemma names_are_pipeline_keys_witness :
  Forall keysAgree
    (Triggers (fst (snd (ProcessDir Example.world ".lighthouse"
                           (Example.quiet, []))))).
Proof.
  exact (proj1 (names_are_pipeline_keys Example.world Example.quiet []
                  (Forall_nil_2 _))
           ".lighthouse").
Defined.


Lemma unreadable_file_stops_editor_witness :
  displayPipeline Example.unreadable Example.trigger "presubmit/pr"
    Example.pipelineYaml (Example.toFile, [])
  = (Fail (ErrWrapf
             (ErrWrapf
                (ErrExternal "open out.yaml: permission denied")
                ("failed to load pipeline file " +:+ "out.yaml"))
             "failed to "),
     (Example.toFile,
      [EvSaveFile Example.pipelineYaml "out.yaml";
       EvInfof ("saved file " +:+ "out.yaml");
       EvReadFile "out.yaml"])).
Proof.
  refine (unreadable_file_stops_editor Example.unreadable Example.trigger
            "presubmit/pr" Example.pipelineYaml Example.toFile [] _
            _ _ eq_refl eq_refl eq_refl).
  - vm_compute. discriminate.
  - vm_compute. discriminate.
Defined.
